(** * To-Do app (src/src/App.tsx): a shallow embedding and its properties

    The React component [App] keeps a flat list of [Todo] records together
    with a handful of form fields.  Every handler replaces the state by a new
    one, so handlers are embedded as functions from state to state, each
    applied to the state of the latest render; the wall clock ([new Date()],
    [Date.now()]) and the platform's date parser ([new Date(string)]) are
    inputs of the functions that consult them.  One evaluation of a filter or
    of the counts is given one clock reading. *)

From Stdlib Require Import ZArith NArith Ascii String List Lia.
From stdpp Require Import base decidable option list strings pretty gmap.

(** ** JavaScript strings

    A JavaScript string is a sequence of UTF-16 code units.  Code units are
    kept as [N]; no function below relies on their being smaller than 2^16. *)

Module JS.

Abbreviation jsstring := (list N).

(** A string literal of the source, as code units (ASCII only). *)
Definition str (s : string) : jsstring :=
  N_of_ascii <$> list_ascii_of_string s.

(** [ToBoolean] on a string: only the empty string is falsy. *)
Definition truthy (s : jsstring) : bool :=
  match s with [] => false | _ :: _ => true end.

(** WhiteSpace and LineTerminator code points of ECMAScript, the set that
    [String.prototype.trim] strips. *)
Definition isWhiteSpace (c : N) : bool :=
  ((9 <=? c) && (c <=? 13) || (c =? 32) || (c =? 160) || (c =? 5760)
   || (8192 <=? c) && (c <=? 8202) || (c =? 8232) || (c =? 8233)
   || (c =? 8239) || (c =? 8287) || (c =? 12288) || (c =? 65279))%N.

Fixpoint trimStart (s : jsstring) : jsstring :=
  match s with
  | c :: s' => if isWhiteSpace c then trimStart s' else s
  | [] => []
  end.

Definition trimEnd (s : jsstring) : jsstring :=
  rev (trimStart (rev s)).

Definition trim (s : jsstring) : jsstring := trimEnd (trimStart s).

(** [Number.prototype.toString] on an integral number below 10^21 in
    magnitude (every value of [Date.now()] is one): decimal digits, with a
    leading minus sign for negative numbers. *)
Definition Number_toString (n : Z) : jsstring := str (pretty n).

End JS.

Import JS.

(** ** Data model (App.tsx, lines 3-19) *)

(** The [due?: string | null] property: absent, [null], or a string. *)
Inductive Due :=
| DueUndefined
| DueNull
| DueString (s : jsstring).

Record Todo := mkTodo {
  id : jsstring;
  text : jsstring;
  completed : bool;
  due : Due
}.

Inductive Filter := FAll | FActive | FCompleted | FSoon.

(** The two string results of [getDueStatus]; its third result, [null], is
    [None]. *)
Inductive DueStatus := overdue | soon.

Global Instance Due_eq_dec : EqDecision Due.
Proof. solve_decision. Defined.
Global Instance Todo_eq_dec : EqDecision Todo.
Proof. solve_decision. Defined.
Global Instance Filter_eq_dec : EqDecision Filter.
Proof. solve_decision. Defined.
Global Instance DueStatus_eq_dec : EqDecision DueStatus.
Proof. solve_decision. Defined.

(** [ToBoolean] on a [string | null | undefined] value. *)
Definition Due_truthy (d : Due) : bool :=
  match d with
  | DueString s => truthy s
  | DueNull | DueUndefined => false
  end.

(** 36 * 60 * 60 * 1000 milliseconds. *)
Definition SOON_WINDOW : Z := 36 * 60 * 60 * 1000.

(** ** The classifier and the filter engine *)

Section Classifier.

(** [new Date(dateString).getTime()]: the time value in milliseconds since
    the epoch, or [None] for an Invalid Date (time value NaN).  The parser
    belongs to the platform and depends on its time zone. *)
Variable Date_parse : jsstring -> option Z.

(** [new Date(v)] on a [string | null | undefined] value: [null] converts
    to the number 0, [undefined] to NaN. *)
Definition Date_new (v : Due) : option Z :=
  match v with
  | DueString s => Date_parse s
  | DueNull => Some 0%Z
  | DueUndefined => None
  end.

(** [getDueStatus] (lines 21-28).  [now] is the reading of [new Date()].
    Time values are integers of magnitude at most 8.64e15 and the window is
    an integer, so the comparisons on doubles agree with those on [Z]; every
    comparison with NaN is false, which leaves the final [return null]. *)
Definition getDueStatus (now : Z) (dateString : Due) : option DueStatus :=
  if negb (Due_truthy dateString) then None
  else match Date_new dateString with
       | Some dueDate =>
           if (now >? dueDate)%Z then Some overdue
           else if (dueDate - now <? SOON_WINDOW)%Z then Some soon
           else None
       | None => None
       end.

(** The callbacks handed to [Array.prototype.filter] (lines 101-106 and
    126-128). *)
Definition isActive (t : Todo) : bool := negb (completed t).
Definition isCompleted (t : Todo) : bool := completed t.
Definition isSoon (now : Z) (t : Todo) : bool :=
  negb (completed t) && bool_decide (getDueStatus now (due t) = Some soon).

(** [filteredTodos] (lines 98-111); [Array.prototype.filter] keeps, in
    order, the elements on which the callback is truthy. *)
Definition filteredTodos (now : Z) (f : Filter) (todos : list Todo)
  : list Todo :=
  match f with
  | FActive => List.filter isActive todos
  | FCompleted => List.filter isCompleted todos
  | FSoon => List.filter (isSoon now) todos
  | FAll => todos
  end.

(** The counts of lines 126-128. *)
Definition activeCount (todos : list Todo) : nat :=
  length (List.filter (fun t => negb (completed t)) todos).
Definition completedCount (todos : list Todo) : nat :=
  length (List.filter (fun t => completed t) todos).
Definition soonCount (now : Z) (todos : list Todo) : nat :=
  length (List.filter
    (fun t => negb (completed t)
              && bool_decide (getDueStatus now (due t) = Some soon)) todos).

(** The [count] each [FilterButton] is given (lines 460-463). *)
Definition badgeCount (now : Z) (f : Filter) (todos : list Todo) : nat :=
  match f with
  | FAll => length todos
  | FActive => activeCount todos
  | FCompleted => completedCount todos
  | FSoon => soonCount now todos
  end.

End Classifier.

(** One instance of the platform's date parser, for evaluating the functions
    on concrete inputs: the reading of a [datetime-local] value
    [YYYY-MM-DDTHH:mm] (what both date inputs of the form produce) in an
    environment whose local time is UTC.  Strings of any other shape are
    read as Invalid Date by this instance. *)
Module SampleDate.

Definition digit (c : N) : option Z :=
  if ((48 <=? c) && (c <=? 57))%N then Some (Z.of_N c - 48)%Z else None.

Definition number2 (a b : N) : option Z :=
  x ← digit a; y ← digit b; Some (10 * x + y)%Z.

Definition number4 (a b c d : N) : option Z :=
  x ← number2 a b; y ← number2 c d; Some (100 * x + y)%Z.

Definition isLeap (y : Z) : bool :=
  ((y mod 4 =? 0) && negb (y mod 100 =? 0) || (y mod 400 =? 0))%Z.

Definition daysInMonth (y m : Z) : Z :=
  if (m =? 2)%Z then (if isLeap y then 29 else 28)%Z
  else if ((m =? 4) || (m =? 6) || (m =? 9) || (m =? 11))%Z then 30%Z
  else 31%Z.

(** Days between 1970-01-01 and the given civil date. *)
Definition daysFromCivil (y m d : Z) : Z :=
  let y' := (if m <=? 2 then y - 1 else y)%Z in
  let era := (y' / 400)%Z in
  let yoe := (y' - era * 400)%Z in
  let mp := (if m <=? 2 then m + 9 else m - 3)%Z in
  let doy := ((153 * mp + 2) / 5 + d - 1)%Z in
  let doe := (yoe * 365 + yoe / 4 - yoe / 100 + doy)%Z in
  (era * 146097 + doe - 719468)%Z.

Definition Date_parse_utc (s : jsstring) : option Z :=
  match s with
  | [y1; y2; y3; y4; 45; m1; m2; 45; d1; d2; 84; h1; h2; 58; n1; n2]%N =>
      y ← number4 y1 y2 y3 y4;
      m ← number2 m1 m2;
      d ← number2 d1 d2;
      h ← number2 h1 h2;
      n ← number2 n1 n2;
      if ((1 <=? m) && (m <=? 12) && (1 <=? d) && (d <=? daysInMonth y m)
          && (h <=? 23) && (n <=? 59))%Z
      then Some (daysFromCivil y m d * 86400000 + h * 3600000 + n * 60000)%Z
      else None
  | _ => None
  end.

End SampleDate.

(** ** Component state and handlers (App.tsx, lines 30-96) *)

(** The [useState] cells of [App]; [st_due] is the cell named [due] and
    [st_filter] the cell named [filter]. *)
Record AppState := mkApp {
  st_todos : list Todo;
  st_input : jsstring;
  st_editingId : option jsstring;
  st_editingText : jsstring;
  st_editingDue : jsstring;
  st_due : jsstring;
  st_filter : Filter
}.

(** [useState] initial values (lines 31-37) around a loaded collection. *)
Definition initialState (loaded : list Todo) : AppState :=
  {| st_todos := loaded; st_input := []; st_editingId := None;
     st_editingText := []; st_editingDue := []; st_due := [];
     st_filter := FAll |}.

Definition setTodos (l : list Todo) (st : AppState) : AppState :=
  {| st_todos := l; st_input := st_input st; st_editingId := st_editingId st;
     st_editingText := st_editingText st; st_editingDue := st_editingDue st;
     st_due := st_due st; st_filter := st_filter st |}.

Definition setInput (s : jsstring) (st : AppState) : AppState :=
  {| st_todos := st_todos st; st_input := s; st_editingId := st_editingId st;
     st_editingText := st_editingText st; st_editingDue := st_editingDue st;
     st_due := st_due st; st_filter := st_filter st |}.

Definition setEditingId (i : option jsstring) (st : AppState) : AppState :=
  {| st_todos := st_todos st; st_input := st_input st; st_editingId := i;
     st_editingText := st_editingText st; st_editingDue := st_editingDue st;
     st_due := st_due st; st_filter := st_filter st |}.

Definition setEditingText (s : jsstring) (st : AppState) : AppState :=
  {| st_todos := st_todos st; st_input := st_input st;
     st_editingId := st_editingId st; st_editingText := s;
     st_editingDue := st_editingDue st; st_due := st_due st;
     st_filter := st_filter st |}.

Definition setEditingDue (s : jsstring) (st : AppState) : AppState :=
  {| st_todos := st_todos st; st_input := st_input st;
     st_editingId := st_editingId st; st_editingText := st_editingText st;
     st_editingDue := s; st_due := st_due st; st_filter := st_filter st |}.

Definition setDue (s : jsstring) (st : AppState) : AppState :=
  {| st_todos := st_todos st; st_input := st_input st;
     st_editingId := st_editingId st; st_editingText := st_editingText st;
     st_editingDue := st_editingDue st; st_due := s;
     st_filter := st_filter st |}.

Definition setFilter (f : Filter) (st : AppState) : AppState :=
  {| st_todos := st_todos st; st_input := st_input st;
     st_editingId := st_editingId st; st_editingText := st_editingText st;
     st_editingDue := st_editingDue st; st_due := st_due st;
     st_filter := f |}.

(** [todo.id === id] on strings. *)
Definition idIs (i : jsstring) (todo : Todo) : bool := bool_decide (id todo = i).

(** [handleAddTodo] (lines 45-59); [now] is the reading of [Date.now()]. *)
Definition handleAddTodo (now : Z) (st : AppState) : AppState :=
  if negb (truthy (trim (st_input st))) then st
  else
    setDue [] (setInput [] (setTodos
      (st_todos st ++
       [ {| id := Number_toString now;
            text := trim (st_input st);
            completed := false;
            due := if truthy (st_due st) then DueString (st_due st)
                   else DueNull |} ]) st)).

(** [handleDelete] (lines 61-63). *)
Definition handleDelete (i : jsstring) (st : AppState) : AppState :=
  setTodos (List.filter (fun todo => negb (idIs i todo)) (st_todos st)) st.

(** [handleToggle] (lines 64-70). *)
Definition handleToggle (i : jsstring) (st : AppState) : AppState :=
  setTodos
    (List.map (fun todo =>
       if idIs i todo
       then {| id := id todo; text := text todo;
               completed := negb (completed todo); due := due todo |}
       else todo) (st_todos st)) st.

(** [handleEdit] (lines 72-77); [dueDate || ""] is the string itself when it
    is non-empty. *)
Definition handleEdit (i text0 : jsstring) (dueDate : Due) (st : AppState)
  : AppState :=
  setEditingDue (match dueDate with
                 | DueString s => s
                 | DueNull | DueUndefined => []
                 end)
    (setEditingText text0 (setEditingId (Some i) st)).

(** Leaving editing mode (lines 85-87 and 92-94). *)
Definition exitEditing (st : AppState) : AppState :=
  setEditingDue [] (setEditingText [] (setEditingId None st)).

(** [handleEditSave] (lines 79-88). *)
Definition handleEditSave (i : jsstring) (st : AppState) : AppState :=
  exitEditing (setTodos
    (List.map (fun todo =>
       if idIs i todo
       then {| id := id todo; text := st_editingText st;
               completed := completed todo;
               due := if truthy (st_editingDue st)
                      then DueString (st_editingDue st) else DueNull |}
       else todo) (st_todos st)) st).

(** [handleKeyDown] (lines 89-96). *)
Definition handleKeyDown (key i : jsstring) (st : AppState) : AppState :=
  let st1 := if bool_decide (key = str "Enter") then handleEditSave i st
             else st in
  if bool_decide (key = str "Escape") then exitEditing st1 else st1.

(** The events the rendered tree wires to the handlers (lines 438-518); a
    form submission carries the clock reading its handler sees. *)
Inductive Event :=
| Submit (now : Z)
| ChangeInput (s : jsstring)
| ChangeDue (s : jsstring)
| ClickFilter (f : Filter)
| ClickToggle (i : jsstring)
| ClickDelete (i : jsstring)
| DoubleClick (i text0 : jsstring) (dueDate : Due)
| ChangeEditingText (s : jsstring)
| ChangeEditingDue (s : jsstring)
| Blur (i : jsstring)
| KeyDown (key i : jsstring).

Definition step (st : AppState) (e : Event) : AppState :=
  match e with
  | Submit now => handleAddTodo now st
  | ChangeInput s => setInput s st
  | ChangeDue s => setDue s st
  | ClickFilter f => setFilter f st
  | ClickToggle i => handleToggle i st
  | ClickDelete i => handleDelete i st
  | DoubleClick i text0 dueDate => handleEdit i text0 dueDate st
  | ChangeEditingText s => setEditingText s st
  | ChangeEditingDue s => setEditingDue s st
  | Blur i => handleEditSave i st
  | KeyDown key i => handleKeyDown key i st
  end.

(** The component after a sequence of events, each handled on the state the
    previous one left. *)
Definition run (st : AppState) (es : list Event) : AppState :=
  fold_left step es st.

(** The ids of the collection, in order. *)
Definition ids (st : AppState) : list jsstring := id <$> st_todos st.

(** Whether [handleAddTodo] accepts the text typed in the form. *)
Definition accepts (st : AppState) : bool := truthy (trim (st_input st)).

(** The clock readings of the accepted adds of a run, in order. *)
Fixpoint addTimes (st : AppState) (es : list Event) : list Z :=
  match es with
  | [] => []
  | e :: es' =>
      match e with
      | Submit now => if accepts st then [now] else []
      | _ => []
      end ++ addTimes (step st e) es'
  end.

(** ** Persistence (App.tsx, lines 11-17 and 41-43)

    [JSON.stringify] and [JSON.parse] belong to the platform; they are
    embedded here on a value type of their own, following ECMA-262
    (sections 25.5.1 and 25.5.2). *)

Module Json.

#[local] Unset Elimination Schemes.
Inductive value :=
| JNull
| JBool (b : bool)
| JNumber (lexeme : jsstring)
| JString (s : jsstring)
| JArray (elems : list value)
| JObject (props : list (jsstring * value)).
#[local] Set Elimination Schemes.

(** *** Serialization *)

Definition hexDigit (n : N) : N :=
  (if n <? 10 then 48 + n else 87 + n)%N.

(** [UnicodeEscape]: a backslash, [u] and four lowercase hexadecimal
    digits. *)
Definition UnicodeEscape (c : N) : jsstring :=
  [92; 117; hexDigit (c / 4096 mod 16); hexDigit (c / 256 mod 16);
   hexDigit (c / 16 mod 16); hexDigit (c mod 16)]%N.

Definition isLeadingSurrogate (c : N) : bool :=
  ((55296 <=? c) && (c <=? 56319))%N.
Definition isTrailingSurrogate (c : N) : bool :=
  ((56320 <=? c) && (c <=? 57343))%N.

(** The two-character escapes of [QuoteJSONString]: the letter that
    follows the backslash. *)
Definition shortEscape (c : N) : option N :=
  (if c =? 8 then Some 98
   else if c =? 9 then Some 116
   else if c =? 10 then Some 110
   else if c =? 12 then Some 102
   else if c =? 13 then Some 114
   else if c =? 34 then Some 34
   else if c =? 92 then Some 92
   else None)%N.

(** The body of [QuoteJSONString]: the string is read code point by code
    point, so a leading surrogate followed by a trailing one is copied as
    a pair and any other surrogate is escaped. *)
Fixpoint quoteChars (s : jsstring) : jsstring :=
  match s with
  | [] => []
  | c :: s' =>
      match shortEscape c with
      | Some e => 92%N :: e :: quoteChars s'
      | None =>
          if (c <? 32)%N then UnicodeEscape c ++ quoteChars s'
          else if isLeadingSurrogate c then
            match s' with
            | d :: s'' =>
                if isTrailingSurrogate d then c :: d :: quoteChars s''
                else UnicodeEscape c ++ quoteChars s'
            | [] => UnicodeEscape c
            end
          else if isTrailingSurrogate c then UnicodeEscape c ++ quoteChars s'
          else c :: quoteChars s'
      end
  end.

Definition QuoteJSONString (s : jsstring) : jsstring :=
  34%N :: quoteChars s ++ [34%N].

(** Items separated by commas. *)
Fixpoint joinComma (items : list jsstring) : jsstring :=
  match items with
  | [] => []
  | [x] => x
  | x :: rest => x ++ 44%N :: joinComma rest
  end.

(** [SerializeJSONProperty] without replacer and indentation. *)
Fixpoint serialize (v : value) : jsstring :=
  match v with
  | JNull => str "null"
  | JBool true => str "true"
  | JBool false => str "false"
  | JNumber lexeme => lexeme
  | JString s => QuoteJSONString s
  | JArray elems => 91%N :: joinComma (List.map serialize elems) ++ [93%N]
  | JObject props =>
      123%N :: joinComma
        (List.map (fun kv => QuoteJSONString (fst kv) ++ 58%N :: serialize (snd kv))
                  props) ++ [125%N]
  end.

(** *** Parsing *)

Definition isJsonWhiteSpace (c : N) : bool :=
  ((c =? 9) || (c =? 10) || (c =? 13) || (c =? 32))%N.

Fixpoint skipWS (s : jsstring) : jsstring :=
  match s with
  | c :: s' => if isJsonWhiteSpace c then skipWS s' else s
  | [] => []
  end.

Definition hexValue (c : N) : option N :=
  (if (48 <=? c) && (c <=? 57) then Some (c - 48)
   else if (97 <=? c) && (c <=? 102) then Some (c - 87)
   else if (65 <=? c) && (c <=? 70) then Some (c - 55)
   else None)%N.

Definition hex4 (a b c d : N) : option N :=
  x ← hexValue a; y ← hexValue b; z ← hexValue c; w ← hexValue d;
  Some (4096 * x + 256 * y + 16 * z + w)%N.

(** The character a two-character escape stands for. *)
Definition unescape (e : N) : option N :=
  (if e =? 34 then Some 34
   else if e =? 92 then Some 92
   else if e =? 47 then Some 47
   else if e =? 98 then Some 8
   else if e =? 102 then Some 12
   else if e =? 110 then Some 10
   else if e =? 114 then Some 13
   else if e =? 116 then Some 9
   else None)%N.

(** The characters of a string literal after its opening quote: the
    string value and the text after the closing quote. *)
Fixpoint parseString (s : jsstring) : option (jsstring * jsstring) :=
  match s with
  | [] => None
  | c :: r =>
      if (c =? 34)%N then Some ([], r)
      else if (c =? 92)%N then
        match r with
        | [] => None
        | e :: r' =>
            if (e =? 117)%N then
              match r' with
              | h1 :: h2 :: h3 :: h4 :: r'' =>
                  match hex4 h1 h2 h3 h4 with
                  | Some u =>
                      match parseString r'' with
                      | Some (body, rest) => Some (u :: body, rest)
                      | None => None
                      end
                  | None => None
                  end
              | _ => None
              end
            else
              match unescape e with
              | Some u =>
                  match parseString r' with
                  | Some (body, rest) => Some (u :: body, rest)
                  | None => None
                  end
              | None => None
              end
        end
      else if (c <? 32)%N then None
      else
        match parseString r with
        | Some (body, rest) => Some (c :: body, rest)
        | None => None
        end
  end.

Definition isDigit (c : N) : bool := ((48 <=? c) && (c <=? 57))%N.

Fixpoint takeDigits (s : jsstring) : jsstring * jsstring :=
  match s with
  | c :: r =>
      if isDigit c then let p := takeDigits r in (c :: fst p, snd p)
      else ([], s)
  | [] => ([], [])
  end.

(** A number literal: its lexeme and the text after it. *)
Definition parseNumber (s : jsstring) : option (jsstring * jsstring) :=
  let '(sign, s1) :=
    match s with
    | c :: r => if (c =? 45)%N then ([c], r) else ([], s)
    | [] => ([], s)
    end in
  match s1 with
  | [] => None
  | c :: r =>
      if negb (isDigit c) then None
      else
        let '(int, s2) :=
          if (c =? 48)%N then ([c], r)
          else let p := takeDigits r in (c :: fst p, snd p) in
        let frac :=
          match s2 with
          | c2 :: r2 =>
              if (c2 =? 46)%N then
                let p := takeDigits r2 in
                if truthy (fst p) then Some (c2 :: fst p, snd p) else None
              else Some ([], s2)
          | [] => Some ([], s2)
          end in
        match frac with
        | None => None
        | Some (fr, s3) =>
            let expo :=
              match s3 with
              | c3 :: r3 =>
                  if ((c3 =? 101) || (c3 =? 69))%N then
                    let '(esign, s4) :=
                      match r3 with
                      | c4 :: r4 =>
                          if ((c4 =? 43) || (c4 =? 45))%N then ([c4], r4)
                          else ([], r3)
                      | [] => ([], r3)
                      end in
                    let p := takeDigits s4 in
                    if truthy (fst p)
                    then Some (c3 :: esign ++ fst p, snd p) else None
                  else Some ([], s3)
              | [] => Some ([], s3)
              end in
            match expo with
            | None => None
            | Some (ex, s5) => Some (sign ++ int ++ fr ++ ex, s5)
            end
        end
  end.

(** [s] without the prefix [p], when it starts with it. *)
Fixpoint stripPrefix (p s : jsstring) : option jsstring :=
  match p, s with
  | [], _ => Some s
  | a :: p', b :: s' => if (a =? b)%N then stripPrefix p' s' else None
  | _ :: _, [] => None
  end.

(** Recursive descent over the JSON grammar.  [fuel] bounds the nesting of
    calls; every call made with less fuel reads a text at least one
    character shorter or is followed by such a call. *)
Fixpoint parseValue (fuel : nat) (s : jsstring) {struct fuel}
  : option (value * jsstring) :=
  match fuel with
  | O => None
  | S fuel' =>
      match skipWS s with
      | [] => None
      | c :: r =>
          if (c =? 34)%N then
            match parseString r with
            | Some (body, rest) => Some (JString body, rest)
            | None => None
            end
          else if (c =? 91)%N then
            match skipWS r with
            | [] => None
            | c' :: r' =>
                if (c' =? 93)%N then Some (JArray [], r')
                else
                  match parseElements fuel' r with
                  | Some (elems, rest) => Some (JArray elems, rest)
                  | None => None
                  end
            end
          else if (c =? 123)%N then
            match skipWS r with
            | [] => None
            | c' :: r' =>
                if (c' =? 125)%N then Some (JObject [], r')
                else
                  match parseMembers fuel' r with
                  | Some (props, rest) => Some (JObject props, rest)
                  | None => None
                  end
            end
          else
            match stripPrefix (str "null") (c :: r) with
            | Some rest => Some (JNull, rest)
            | None =>
            match stripPrefix (str "true") (c :: r) with
            | Some rest => Some (JBool true, rest)
            | None =>
            match stripPrefix (str "false") (c :: r) with
            | Some rest => Some (JBool false, rest)
            | None =>
            match parseNumber (c :: r) with
            | Some (lexeme, rest) => Some (JNumber lexeme, rest)
            | None => None
            end end end end
      end
  end
with parseElements (fuel : nat) (s : jsstring) {struct fuel}
  : option (list value * jsstring) :=
  match fuel with
  | O => None
  | S fuel' =>
      match parseValue fuel' s with
      | None => None
      | Some (v, r) =>
          match skipWS r with
          | [] => None
          | c :: r' =>
              if (c =? 44)%N then
                match parseElements fuel' r' with
                | Some (vs, rest) => Some (v :: vs, rest)
                | None => None
                end
              else if (c =? 93)%N then Some ([v], r')
              else None
          end
      end
  end
with parseMembers (fuel : nat) (s : jsstring) {struct fuel}
  : option (list (jsstring * value) * jsstring) :=
  match fuel with
  | O => None
  | S fuel' =>
      match skipWS s with
      | [] => None
      | q :: r0 =>
          if negb (q =? 34)%N then None
          else
            match parseString r0 with
            | None => None
            | Some (k, r1) =>
                match skipWS r1 with
                | [] => None
                | c1 :: r2 =>
                    if negb (c1 =? 58)%N then None
                    else
                      match parseValue fuel' r2 with
                      | None => None
                      | Some (v, r3) =>
                          match skipWS r3 with
                          | [] => None
                          | c :: r4 =>
                              if (c =? 44)%N then
                                match parseMembers fuel' r4 with
                                | Some (ps, rest) => Some ((k, v) :: ps, rest)
                                | None => None
                                end
                              else if (c =? 125)%N then Some ([(k, v)], r4)
                              else None
                          end
                      end
                end
            end
      end
  end.

(** [JSON.parse] without reviver; [None] is the SyntaxError it throws.  The
    descent is given two units of fuel per character of the text. *)
Definition JSON_parse (s : jsstring) : option value :=
  match parseValue (2 * length s + 2) s with
  | Some (v, rest) =>
      match skipWS rest with
      | [] => Some v
      | _ :: _ => None
      end
  | None => None
  end.

(** Reading property [k] of a parsed object: a name that occurs twice in
    the text keeps the value written last. *)
Fixpoint getProp (k : jsstring) (props : list (jsstring * value))
  : option value :=
  match props with
  | [] => None
  | (k', v) :: rest =>
      match getProp k rest with
      | Some v' => Some v'
      | None => if bool_decide (k' = k) then Some v else None
      end
  end.

(** *** Measures for reasoning about the parser *)

(** The text of one property of an object. *)
Definition member (kv : jsstring * value) : jsstring :=
  QuoteJSONString (fst kv) ++ 58%N :: serialize (snd kv).

(** Values without number literals. *)
Fixpoint numberFree (v : value) : bool :=
  match v with
  | JNumber _ => false
  | JArray elems => forallb numberFree elems
  | JObject props => forallb (fun kv => numberFree (snd kv)) props
  | _ => true
  end.

(** The fuel [parseValue] uses on the text of a value: one unit per value,
    per element of an array and per property of an object along the
    deepest chain of calls. *)
Fixpoint need (v : value) : nat :=
  match v with
  | JArray elems => S (fold_right (fun x n => S (Nat.max (need x) n)) 0 elems)
  | JObject props =>
      S (fold_right (fun kv n => S (Nat.max (need (snd kv)) n)) 0 props)
  | _ => 1
  end.

Definition needElems (vs : list value) : nat :=
  fold_right (fun x n => S (Nat.max (need x) n)) 0 vs.

Definition needProps (ps : list (jsstring * value)) : nat :=
  fold_right (fun kv n => S (Nat.max (need (snd kv)) n)) 0 ps.

End Json.

Import Json.

Definition STORAGE_KEY : jsstring := str "immersive-todo-list".

(** The object a [Todo] is at run time: its properties in the order the
    object literal of [handleAddTodo] creates them; a property whose value is
    [undefined] is not serialized, which is also what an absent one gives. *)
Definition Todo_toJson (t : Todo) : value :=
  JObject
    ([ (str "id", JString (id t));
       (str "text", JString (text t));
       (str "completed", JBool (completed t)) ]
     ++ match due t with
        | DueUndefined => []
        | DueNull => [ (str "due", JNull) ]
        | DueString s => [ (str "due", JString s) ]
        end).

(** [JSON.stringify(todos)] (line 42). *)
Definition JSON_stringify (todos : list Todo) : jsstring :=
  serialize (JArray (List.map Todo_toJson todos)).

(** The cast [as Todo[]] (line 15) is unchecked; a parsed value is read as a
    collection when it is an array of objects whose properties have the
    types of [Todo], and is outside the data model ([None]) otherwise. *)
Definition Todo_ofJson (v : value) : option Todo :=
  match v with
  | JObject props =>
      match getProp (str "id") props, getProp (str "text") props,
            getProp (str "completed") props with
      | Some (JString i), Some (JString x), Some (JBool c) =>
          match getProp (str "due") props with
          | None => Some (mkTodo i x c DueUndefined)
          | Some JNull => Some (mkTodo i x c DueNull)
          | Some (JString s) => Some (mkTodo i x c (DueString s))
          | Some _ => None
          end
      | _, _, _ => None
      end
  | _ => None
  end.

Definition Todos_ofJson (v : value) : option (list Todo) :=
  match v with
  | JArray elems => mapM Todo_ofJson elems
  | _ => None
  end.

(** [localStorage]: string keys to string values. *)
Abbreviation Storage := (gmap (list N) (list N)).

(** What start-up can come to. *)
Inductive Loaded :=
| LoadedTodos (todos : list Todo)
| SyntaxError
| NotTodos.

(** [getInitialTodos] (lines 13-17). *)
Definition getInitialTodos (ls : Storage) : Loaded :=
  match ls !! STORAGE_KEY with
  | Some fromStorage =>
      if truthy fromStorage then
        match JSON_parse fromStorage with
        | Some v =>
            match Todos_ofJson v with
            | Some todos => LoadedTodos todos
            | None => NotTodos
            end
        | None => SyntaxError
        end
      else LoadedTodos []
  | None => LoadedTodos []
  end.

(** The effect of lines 41-43, run after a render in which [todos] changed. *)
Definition persist (todos : list Todo) (ls : Storage) : Storage :=
  <[STORAGE_KEY := JSON_stringify todos]> ls.

(** ** The specification's classifier and selectors

    These two definitions follow the words of the specification (sections
    4.1 and 4.2), not the code; the theorems below compare the code with
    them. *)

Module Spec.

(** The four states section 4.1 names. *)
Inductive status := SNone | SOverdue | SSoon | SNormal.

(** "If no due timestamp: none.  If now > due: overdue.  Else if
    (due - now) < 36 hours: soon.  Else: normal." *)
Definition classify (d : option Z) (now : Z) : status :=
  match d with
  | None => SNone
  | Some d =>
      if (now >? d)%Z then SOverdue
      else if (d - now <? 36 * 60 * 60 * 1000)%Z then SSoon
      else SNormal
  end.

(** The predicate of each filter selector, over the result [cls] of the
    classifier on a task. *)
Definition selects (cls : Todo -> option DueStatus) (f : Filter) (t : Todo)
  : Prop :=
  match f with
  | FAll => True
  | FActive => completed t = false
  | FCompleted => completed t = true
  | FSoon => completed t = false /\ cls t = Some soon
  end.

Global Instance selects_dec cls f t : Decision (selects cls f t).
Proof. destruct f; simpl; apply _. Defined.

End Spec.

(** The predicate of a selector, with the code's classifier at [now]. *)
Definition selected (Date_parse : jsstring -> option Z) (now : Z) (f : Filter)
  (t : Todo) : Prop :=
  Spec.selects (fun t => getDueStatus Date_parse now (due t)) f t.

(** ** What the rendered tree shows (App.tsx, lines 455-537) *)

(** The [disabled] attribute of the add button (line 455). *)
Definition addDisabled (st : AppState) : bool :=
  negb (truthy (trim (st_input st))).


(** Whether the "No tasks here for this filter" row is rendered (line 466). *)
Definition showsEmpty (Date_parse : jsstring -> option Z) (now : Z)
  (st : AppState) : bool :=
  Nat.eqb (length (filteredTodos Date_parse now (st_filter st) (st_todos st))) 0.

(** The due badge of a row (lines 468 and 523-529): no badge when [todo.due]
    is falsy, otherwise a badge carrying the status as its class and label
    ([Some None] is the badge without label). *)
Definition dueBadge (Date_parse : jsstring -> option Z) (now : Z)
  (todo : Todo) : option (option DueStatus) :=
  if Due_truthy (due todo) then Some (getDueStatus Date_parse now (due todo))
  else None.

(** Whether a row shows the edit inputs instead of the text (line 484). *)
Definition isEditing (st : AppState) (todo : Todo) : bool :=
  bool_decide (st_editingId st = Some (id todo)).

(** ** Predicates used to state properties of runs *)

(** The characters a JSON value can begin with. *)
Definition startsValue (c : N) : bool :=
  ((c =? 34) || (c =? 91) || (c =? 123) || (c =? 110) || (c =? 116)
   || (c =? 102) || (c =? 45) || isDigit c)%N.

(** The events that reach [handleEditSave]: a blur of an edit input and the
    Enter key in one (lines 90, 493 and 503). *)
Definition commitsEdit (e : Event) : bool :=
  match e with
  | Blur _ => true
  | KeyDown key _ => bool_decide (key = str "Enter")
  | _ => false
  end.

(** A due value as [handleAddTodo] and [handleEditSave] write it: [null] or
    a non-empty string. *)
Definition dueIsNormal (t : Todo) : Prop :=
  due t = DueNull \/ exists s, due t = DueString s /\ s <> [].

(** A text as [handleAddTodo] writes it: not empty, and unchanged by
    [trim]. *)
Definition textIsTrimmed (t : Todo) : Prop :=
  text t <> [] /\ trim (text t) = text t.

(** * Properties *)

(** ** The classifier *)

Section ClassifierFacts.

Variable Date_parse : jsstring -> option Z.

Lemma getDueStatus_missing now :
  getDueStatus Date_parse now DueNull = None
  /\ getDueStatus Date_parse now DueUndefined = None
  /\ getDueStatus Date_parse now (DueString []) = None.
Proof. repeat split. Qed.

Lemma getDueStatus_dated now s d :
  s <> [] -> Date_parse s = Some d ->
  getDueStatus Date_parse now (DueString s) =
    if (now >? d)%Z then Some overdue
    else if (d - now <? SOON_WINDOW)%Z then Some soon else None.
Proof.
  intros Hs Hd. unfold getDueStatus. simpl.
  destruct s as [|c s']; [congruence|]. simpl. now rewrite Hd.
Qed.

(** C1 (as amended): on a due string that denotes the time [d], the
    classifier returns ["overdue"] iff [now > d], ["soon"] iff [d >= now]
    and [d - now] is below 36 hours, and [null] in the remaining case; for
    a null, absent or empty due value it returns that same [null]. *)
Theorem C1_getDueStatus_cases (now : Z) (s : jsstring) (d : Z) :
  s <> [] -> Date_parse s = Some d ->
  (getDueStatus Date_parse now (DueString s) = Some overdue <-> (now > d)%Z)
  /\ (getDueStatus Date_parse now (DueString s) = Some soon
      <-> (d >= now)%Z /\ (d - now < 36 * 60 * 60 * 1000)%Z)
  /\ (getDueStatus Date_parse now (DueString s) = None
      <-> (d >= now)%Z /\ (d - now >= 36 * 60 * 60 * 1000)%Z)
  /\ getDueStatus Date_parse now DueNull = None
  /\ getDueStatus Date_parse now DueUndefined = None
  /\ getDueStatus Date_parse now (DueString []) = None.
Proof.
  intros Hs Hd. rewrite (getDueStatus_dated now s d Hs Hd).
  unfold SOON_WINDOW.
  destruct (Z.gtb_spec now d) as [Hgt|Hle];
    [|destruct (Z.ltb_spec (d - now) (36 * 60 * 60 * 1000)) as [Hlt|Hge]];
    repeat split; intros; try congruence; try lia;
    match goal with H : _ /\ _ |- _ => destruct H; lia end.
Qed.

(** C9: a due string whose time is at least 36 hours ahead of [now] gets
    the very result a missing due value gets. *)
Theorem C9_normal_is_none (now : Z) (s : jsstring) (d : Z) :
  Date_parse s = Some d ->
  (d - now >= 36 * 60 * 60 * 1000)%Z -> (d >= now)%Z ->
  getDueStatus Date_parse now (DueString s) = getDueStatus Date_parse now DueNull
  /\ getDueStatus Date_parse now (DueString s)
     = getDueStatus Date_parse now DueUndefined.
Proof.
  intros Hd Hfar Hge.
  assert (getDueStatus Date_parse now (DueString s) = None) as ->; [|done].
  destruct s as [|c s']; [done|].
  rewrite (getDueStatus_dated now (c :: s') d); [|done|done].
  unfold SOON_WINDOW.
  destruct (Z.gtb_spec now d); [lia|].
  destruct (Z.ltb_spec (d - now) (36 * 60 * 60 * 1000)); [lia|done].
Qed.

End ClassifierFacts.

(** C1 fails as stated: 36 hours ahead of [now] the specification's state is
    [normal], for a null due value it is [none], and the code returns one
    and the same value for both, so no reading of its results as the four
    states agrees with the specification on these two inputs. *)
Lemma C1_normal_none_collapse :
  ~ exists view : option DueStatus -> Spec.status,
      view (getDueStatus SampleDate.Date_parse_utc 0 DueNull)
        = Spec.classify None 0
      /\ view (getDueStatus SampleDate.Date_parse_utc 0
                 (DueString (str "1970-01-02T12:00")))
        = Spec.classify (SampleDate.Date_parse_utc (str "1970-01-02T12:00")) 0.
Proof.
  intros [view [Hnone Hnormal]].
  vm_compute in Hnone, Hnormal. congruence.
Qed.

(** C1 at [now = 0] and a due date 24 hours later. *)
Lemma C1_getDueStatus_cases_witness :
  let s := str "1970-01-02T00:00" in
  s <> [] /\ SampleDate.Date_parse_utc s = Some 86400000%Z
  /\ (getDueStatus SampleDate.Date_parse_utc 0 (DueString s) = Some soon
      <-> (86400000 >= 0)%Z /\ (86400000 - 0 < 36 * 60 * 60 * 1000)%Z).
Proof.
  intros s.
  assert (Hs : s <> []) by discriminate.
  assert (Hd : SampleDate.Date_parse_utc s = Some 86400000%Z) by reflexivity.
  split; [exact Hs|]. split; [exact Hd|].
  exact (proj1 (proj2
    (C1_getDueStatus_cases SampleDate.Date_parse_utc 0 s 86400000 Hs Hd))).
Defined.

(** C9 at [now = 0] and a due date exactly 36 hours later. *)
Lemma C9_normal_is_none_witness :
  let s := str "1970-01-02T12:00" in
  SampleDate.Date_parse_utc s = Some 129600000%Z
  /\ (129600000 - 0 >= 36 * 60 * 60 * 1000)%Z /\ (129600000 >= 0)%Z
  /\ getDueStatus SampleDate.Date_parse_utc 0 (DueString s)
     = getDueStatus SampleDate.Date_parse_utc 0 DueNull.
Proof.
  intros s.
  assert (Hd : SampleDate.Date_parse_utc s = Some 129600000%Z) by reflexivity.
  assert (Hfar : (129600000 - 0 >= 36 * 60 * 60 * 1000)%Z) by lia.
  assert (Hge : (129600000 >= 0)%Z) by lia.
  split; [exact Hd|]. split; [exact Hfar|]. split; [exact Hge|].
  exact (proj1 (C9_normal_is_none SampleDate.Date_parse_utc 0 s 129600000
                  Hd Hfar Hge)).
Defined.

(** ** The filter engine and the counts *)

Section ListFacts.

Context {A : Type}.

(** [List.filter] on a boolean callback is the filter of the proposition
    the callback decides. *)
Lemma filter_bool_prop (b : A -> bool) (Q : A -> Prop)
      `{!forall x, Decision (Q x)} (l : list A) :
  (forall x, b x = true <-> Q x) -> List.filter b l = filter Q l.
Proof.
  intros Hb. induction l as [|x l IH]; [done|].
  simpl. rewrite filter_cons, IH.
  destruct (decide (Q x)) as [HQ|HQ].
  - apply Hb in HQ. now rewrite HQ.
  - destruct (b x) eqn:Hbx; [|done]. apply Hb in Hbx. contradiction.
Qed.

(** Every sublist made of elements satisfying [Q] is a sublist of the
    filter: nothing that qualifies is dropped. *)
Lemma sublist_filter_greatest (Q : A -> Prop) `{!forall x, Decision (Q x)}
      (k l : list A) :
  k `sublist_of` l -> Forall Q k -> k `sublist_of` filter Q l.
Proof.
  induction 1 as [|x k l Hkl IH|x k l Hkl IH]; intros HQ.
  - constructor.
  - apply Forall_cons in HQ as [Hx Hk]. rewrite filter_cons_True by done.
    constructor. auto.
  - rewrite filter_cons. destruct (decide (Q x)); [constructor|]; auto.
Qed.

Lemma length_filter_partition (b : A -> bool) (l : list A) :
  length l = length (List.filter (fun x => negb (b x)) l)
             + length (List.filter b l).
Proof.
  induction l as [|x l IH]; [done|].
  simpl. destruct (b x); simpl; lia.
Qed.

End ListFacts.

Section FilterFacts.

Variable Date_parse : jsstring -> option Z.

Lemma filteredTodos_filter now f todos :
  filteredTodos Date_parse now f todos = filter (selected Date_parse now f) todos.
Proof.
  destruct f; simpl.
  - induction todos as [|t l IH]; [done|].
    rewrite filter_cons_True by exact I. now rewrite <- IH.
  - apply filter_bool_prop. intros t. unfold isActive, selected. simpl.
    destruct (completed t); simpl; split; congruence.
  - apply filter_bool_prop. intros t. unfold isCompleted, selected. simpl.
    destruct (completed t); simpl; split; congruence.
  - apply filter_bool_prop. intros t. unfold isSoon, selected. simpl.
    rewrite andb_true_iff, negb_true_iff, bool_decide_eq_true. tauto.
Qed.

(** C2: for every collection and selector, [filteredTodos] is the filter
    of the selector's predicate: it is a sublist of the collection (same
    relative order, nothing re-sorted), it holds exactly the tasks of the
    collection that satisfy the predicate, and every sublist of qualifying
    tasks is a sublist of it. *)
Theorem C2_filteredTodos_exact (now : Z) (f : Filter) (todos : list Todo) :
  filteredTodos Date_parse now f todos = filter (selected Date_parse now f) todos
  /\ filteredTodos Date_parse now f todos `sublist_of` todos
  /\ (forall t, t ∈ filteredTodos Date_parse now f todos
                <-> t ∈ todos /\ selected Date_parse now f t)
  /\ (forall k, k `sublist_of` todos -> Forall (selected Date_parse now f) k ->
                k `sublist_of` filteredTodos Date_parse now f todos)
  /\ filteredTodos Date_parse now FAll todos = todos.
Proof.
  rewrite filteredTodos_filter. split; [done|].
  split; [apply sublist_filter|].
  split; [intros t; rewrite list_elem_of_filter; tauto|].
  split; [|done].
  intros k Hk HQ. now apply sublist_filter_greatest.
Qed.

(** C3: the count shown for a category is the length of what the filter
    engine returns for it at the same clock reading. *)
Theorem C3_counts_match_filter (now : Z) (f : Filter) (todos : list Todo) :
  badgeCount Date_parse now f todos
  = length (filteredTodos Date_parse now f todos).
Proof. destruct f; reflexivity. Qed.

(** C8: the count of [all] is the count of [active] plus the count of
    [completed]. *)
Theorem C8_all_is_active_plus_completed (now : Z) (todos : list Todo) :
  badgeCount Date_parse now FAll todos
  = badgeCount Date_parse now FActive todos
    + badgeCount Date_parse now FCompleted todos.
Proof.
  simpl. unfold activeCount, completedCount.
  apply (length_filter_partition completed).
Qed.

End FilterFacts.

(** ** Operations on the collection *)

Section OperationFacts.

Implicit Types (st : AppState) (i : jsstring) (t : Todo).

Lemma setTodos_same st : setTodos (st_todos st) st = st.
Proof. now destruct st. Qed.

Lemma map_unknown_id i (f : Todo -> Todo) (l : list Todo) :
  (forall t, t ∈ l -> id t <> i) ->
  List.map (fun t => if idIs i t then f t else t) l = l.
Proof.
  induction l as [|t l IH]; intros Hno; [done|].
  simpl. rewrite IH by (intros t' Ht'; apply Hno; now right).
  unfold idIs. rewrite bool_decide_eq_false_2; [done|].
  apply Hno. now left.
Qed.

Lemma filter_unknown_id i (l : list Todo) :
  (forall t, t ∈ l -> id t <> i) ->
  List.filter (fun t => negb (idIs i t)) l = l.
Proof.
  induction l as [|t l IH]; intros Hno; [done|].
  simpl. unfold idIs at 1. rewrite bool_decide_eq_false_2 by (apply Hno; now left).
  simpl. f_equal. apply IH. intros t' Ht'. apply Hno. now right.
Qed.

(** What [handleEditSave] leaves in the collection. *)
Lemma handleEditSave_todos i st :
  st_todos (handleEditSave i st)
  = List.map (fun t =>
      if idIs i t
      then mkTodo (id t) (st_editingText st) (completed t)
             (if truthy (st_editingDue st) then DueString (st_editingDue st)
              else DueNull)
      else t) (st_todos st).
Proof. reflexivity. Qed.

Lemma handleEditSave_exits i st :
  st_editingId (handleEditSave i st) = None
  /\ st_editingText (handleEditSave i st) = []
  /\ st_editingDue (handleEditSave i st) = [].
Proof. repeat split. Qed.

(** C6: on an id no task carries, toggle and delete return the state they
    were given and edit-commit only leaves editing mode; the collection is
    the same after each of them.  The three handlers are total functions,
    so there is no error to raise. *)
Theorem C6_unknown_id_is_ignored st i :
  (forall t, t ∈ st_todos st -> id t <> i) ->
  handleToggle i st = st
  /\ handleDelete i st = st
  /\ handleEditSave i st = exitEditing st
  /\ st_todos (handleEditSave i st) = st_todos st.
Proof.
  intros Hno. unfold handleToggle, handleDelete, handleEditSave.
  rewrite !map_unknown_id, filter_unknown_id, setTodos_same by done.
  done.
Qed.

Lemma trimStart_nil_iff (s : jsstring) :
  trimStart s = [] <-> forallb isWhiteSpace s = true.
Proof.
  induction s as [|c s IH]; [done|].
  simpl. destruct (isWhiteSpace c); simpl; [exact IH|split; discriminate].
Qed.

Lemma trimStart_head (s : jsstring) c r :
  trimStart s = c :: r -> isWhiteSpace c = false.
Proof.
  induction s as [|a s IH]; [discriminate|].
  simpl. destruct (isWhiteSpace a) eqn:Ha; [exact IH|].
  intros [= -> _]. exact Ha.
Qed.

(** [trim] leaves nothing exactly on the strings that are empty or made of
    whitespace only. *)
Lemma trim_nil_iff (s : jsstring) :
  trim s = [] <-> forallb isWhiteSpace s = true.
Proof.
  unfold trim, trimEnd. split.
  - intros H. apply (f_equal (@rev N)) in H. rewrite rev_involutive in H.
    simpl in H. apply trimStart_nil_iff in H.
    destruct (trimStart s) as [|c r] eqn:Hs; [now apply trimStart_nil_iff|].
    apply trimStart_head in Hs.
    rewrite forallb_forall in H. rewrite (H c) in Hs; [discriminate|].
    apply in_rev. rewrite rev_involutive. now left.
  - intros H. apply trimStart_nil_iff in H. now rewrite H.
Qed.

(** C10: when a task carries the id and the edited text is empty or only
    whitespace, edit-commit stores that very text in every task carrying
    the id (there is one), whereas add, given such an input, returns the
    state unchanged. *)
Theorem C10_edit_commit_stores_blank st i :
  (exists t, t ∈ st_todos st /\ id t = i) ->
  forallb isWhiteSpace (st_editingText st) = true ->
  (exists t', t' ∈ st_todos (handleEditSave i st) /\ id t' = i)
  /\ (forall t', t' ∈ st_todos (handleEditSave i st) -> id t' = i ->
                 text t' = st_editingText st)
  /\ (forall now st', st_input st' = st_editingText st ->
                      handleAddTodo now st' = st').
Proof.
  intros [t [Ht Hid]] Hblank. apply trim_nil_iff in Hblank.
  rewrite handleEditSave_todos.
  split; [|split].
  - eexists. split.
    + apply list_elem_of_In, in_map, list_elem_of_In, Ht.
    + simpl. destruct (idIs i t); simpl; exact Hid.
  - intros t' Ht' Hid'.
    apply list_elem_of_In, in_map_iff in Ht' as [t0 [<- Ht0]].
    unfold idIs in *. destruct (bool_decide_reflect (id t0 = i)) as [|Hne].
    + reflexivity.
    + contradiction.
  - intros now st' Hin. unfold handleAddTodo. now rewrite Hin, Hblank.
Qed.

End OperationFacts.

(** C6 on a one-task collection and an id it does not hold. *)
Lemma C6_unknown_id_is_ignored_witness :
  let st := initialState [mkTodo (str "1") (str "a") false DueNull] in
  (forall t, t ∈ st_todos st -> id t <> str "2")
  /\ handleDelete (str "2") st = st.
Proof.
  intros st.
  assert (Hno : forall t, t ∈ st_todos st -> id t <> str "2").
  { intros t Ht. apply list_elem_of_singleton in Ht. subst t. discriminate. }
  split; [exact Hno|].
  exact (proj1 (proj2 (C6_unknown_id_is_ignored st (str "2") Hno))).
Defined.

(** C10 on a one-task collection and an edited text of two spaces. *)
Lemma C10_edit_commit_stores_blank_witness :
  let st := setEditingText (str "  ")
              (initialState [mkTodo (str "1") (str "a") false DueNull]) in
  (exists t, t ∈ st_todos st /\ id t = str "1")
  /\ forallb isWhiteSpace (st_editingText st) = true
  /\ (forall t', t' ∈ st_todos (handleEditSave (str "1") st) ->
                 id t' = str "1" -> text t' = str "  ").
Proof.
  intros st.
  assert (Hin : exists t, t ∈ st_todos st /\ id t = str "1").
  { eexists. split; [apply list_elem_of_here|reflexivity]. }
  assert (Hblank : forallb isWhiteSpace (st_editingText st) = true)
    by reflexivity.
  split; [exact Hin|]. split; [exact Hblank|].
  exact (proj1 (proj2 (C10_edit_commit_stores_blank st (str "1") Hin Hblank))).
Defined.

(** C4, evaluated where the code departs from it: committing the edited
    text " b " stores " b ", not its trimmed form "b"; the due value is
    written and editing mode is left as the claim says. *)
Theorem C4_edit_commit_does_not_trim :
  let st := setEditingDue (str "2030-01-01T10:00") (setEditingText (str " b ")
              (setEditingId (Some (str "1"))
                 (initialState [mkTodo (str "1") (str "a") false DueNull]))) in
  st_todos (handleEditSave (str "1") st)
    = [mkTodo (str "1") (str " b ") false (DueString (str "2030-01-01T10:00"))]
  /\ trim (st_editingText st) = str "b"
  /\ text <$> st_todos (handleEditSave (str "1") st) <> [trim (st_editingText st)]
  /\ st_editingId (handleEditSave (str "1") st) = None.
Proof. vm_compute. repeat split; discriminate. Qed.

(** ** Identifiers *)

Section IdFacts.

Implicit Types (st : AppState) (e : Event) (es : list Event).

Lemma str_inj (a b : string) : str a = str b -> a = b.
Proof.
  unfold str. intros H.
  rewrite <- (string_of_list_ascii_of_string a),
          <- (string_of_list_ascii_of_string b).
  f_equal. revert H.
  generalize (list_ascii_of_string a) (list_ascii_of_string b).
  induction l as [|x l IH]; intros [|y k] H; try discriminate; [done|].
  simpl in H. injection H as Hxy Hlk. f_equal; [|auto].
  rewrite <- (ascii_N_embedding x), <- (ascii_N_embedding y). now f_equal.
Qed.

(** Distinct clock readings print as distinct ids. *)
Lemma Number_toString_inj (m n : Z) :
  Number_toString m = Number_toString n -> m = n.
Proof. intros H. apply str_inj in H. now apply (inj pretty). Qed.

Lemma ids_map_keeps (f : Todo -> Todo) (l : list Todo) :
  (forall t, id (f t) = id t) -> id <$> List.map f l = id <$> l.
Proof.
  intros Hf. induction l as [|t l IH]; [done|].
  cbn [List.map]. rewrite !fmap_cons. now rewrite Hf, IH.
Qed.

Lemma ids_filter_sublist (b : Todo -> bool) (l : list Todo) :
  (id <$> List.filter b l) `sublist_of` (id <$> l).
Proof.
  induction l as [|t l IH]; [done|].
  simpl. destruct (b t); simpl; [now constructor|now constructor].
Qed.

Lemma ids_handleToggle i st : ids (handleToggle i st) = ids st.
Proof.
  unfold ids, handleToggle, setTodos. cbn [st_todos]. apply ids_map_keeps.
  intros t. now destruct (idIs i t).
Qed.

Lemma ids_handleEditSave i st : ids (handleEditSave i st) = ids st.
Proof.
  unfold ids. rewrite handleEditSave_todos. apply ids_map_keeps.
  intros t. now destruct (idIs i t).
Qed.

Lemma ids_handleDelete i st : ids (handleDelete i st) `sublist_of` ids st.
Proof. apply ids_filter_sublist. Qed.

(** [handleAddTodo] either rejects the input or appends one task whose id
    is the printed clock reading. *)
Lemma handleAddTodo_rejects now st :
  accepts st = false -> handleAddTodo now st = st.
Proof. unfold accepts, handleAddTodo. now intros ->. Qed.

Lemma ids_handleAddTodo now st :
  accepts st = true ->
  ids (handleAddTodo now st) = ids st ++ [Number_toString now].
Proof.
  unfold accepts, ids, handleAddTodo. intros ->. simpl. now rewrite fmap_app.
Qed.

(** Every event other than a form submission keeps the ids or drops
    some. *)
Lemma ids_step_other st e :
  (forall now, e <> Submit now) -> ids (step st e) `sublist_of` ids st.
Proof.
  intros Hne. destruct e; simpl; try reflexivity.
  - now destruct (Hne now).
  - now rewrite ids_handleToggle.
  - apply ids_handleDelete.
  - now rewrite ids_handleEditSave.
  - unfold handleKeyDown.
    destruct (bool_decide (key = str "Enter"));
      destruct (bool_decide (key = str "Escape")); try reflexivity;
      change (ids (exitEditing ?s)) with (ids s);
      now rewrite ?ids_handleEditSave.
Qed.

(** The invariant of a run: the ids are pairwise distinct and each prints
    the clock reading of an accepted add. *)
Lemma run_ids_NoDup es : forall st (seen : list Z),
  NoDup (ids st) ->
  (forall i, i ∈ ids st -> exists n, n ∈ seen /\ i = Number_toString n) ->
  NoDup (seen ++ addTimes st es) ->
  NoDup (ids (run st es)).
Proof.
  induction es as [|e es IH]; intros st seen Hnd Hseen Hfresh; [done|].
  change (run st (e :: es)) with (run (step st e) es).
  assert ((exists now, e = Submit now) \/ (forall now, e <> Submit now))
    as [[now ->]|Hne] by (destruct e; eauto).
  - cbn [addTimes] in Hfresh. destruct (accepts st) eqn:Hacc.
    + rewrite (assoc_L (++) seen [now]) in Hfresh.
      apply (IH _ (seen ++ [now])); [| |exact Hfresh].
      * simpl. rewrite ids_handleAddTodo by done.
        apply NoDup_app. split; [done|]. split; [|apply NoDup_singleton].
        intros i Hi Hnew. apply list_elem_of_singleton in Hnew. subst i.
        destruct (Hseen _ Hi) as [n [Hn Heq]].
        apply Number_toString_inj in Heq. subst n.
        apply NoDup_app in Hfresh as [Hfresh _].
        apply NoDup_app in Hfresh as [_ [Hfresh _]].
        apply (Hfresh now Hn). now left.
      * intros i Hi. simpl in Hi. rewrite ids_handleAddTodo in Hi by done.
        apply elem_of_app in Hi as [Hi|Hi].
        -- destruct (Hseen _ Hi) as [n [Hn ->]]. exists n.
           split; [|done]. apply elem_of_app. now left.
        -- apply list_elem_of_singleton in Hi. exists now.
           split; [|done]. apply elem_of_app. right. now left.
    + simpl in Hfresh |- *. rewrite handleAddTodo_rejects in Hfresh |- * by done.
      now apply (IH _ seen).
  - assert (addTimes st (e :: es) = addTimes (step st e) es) as Htimes
      by (destruct e; try reflexivity; now destruct (Hne now)).
    rewrite Htimes in Hfresh.
    pose proof (ids_step_other st e Hne) as Hsub.
    apply (IH _ seen); [| |exact Hfresh].
    + eapply sublist_NoDup; eauto.
    + intros i Hi. apply Hseen. eapply elem_of_sublist; eauto.
Qed.

(** C5 (as amended): every accepted add appends one task whose id is the
    decimal print of the clock reading of that add, and after every
    sequence of events from an empty collection whose accepted adds read
    pairwise distinct clock values, no two tasks share an id. *)
Theorem C5_ids_unique_on_distinct_clock st es :
  st_todos st = [] ->
  NoDup (addTimes st es) ->
  NoDup (id <$> st_todos (run st es))
  /\ (forall now st', accepts st' = true ->
        id <$> st_todos (handleAddTodo now st')
        = (id <$> st_todos st') ++ [Number_toString now]).
Proof.
  intros Hempty Hdistinct. split.
  - apply (run_ids_NoDup es st []); unfold ids; rewrite ?Hempty.
    + constructor.
    + intros i Hi. now apply elem_of_nil in Hi.
    + exact Hdistinct.
  - intros now st' Hok. now apply ids_handleAddTodo.
Qed.

End IdFacts.

(** C5 fails as stated: two accepted adds that read the same clock value
    leave two tasks with the same id. *)
Lemma C5_same_clock_same_id :
  let es := [ChangeInput (str "a"); Submit 1000;
             ChangeInput (str "b"); Submit 1000] in
  id <$> st_todos (run (initialState []) es) = [str "1000"; str "1000"]
  /\ ~ NoDup (id <$> st_todos (run (initialState []) es)).
Proof.
  intros es. assert (Hids : id <$> st_todos (run (initialState []) es)
                            = [str "1000"; str "1000"]) by (vm_compute; reflexivity).
  split; [exact Hids|]. rewrite Hids. intros Hnd.
  apply NoDup_cons in Hnd as [Hnotin _]. apply Hnotin. now left.
Qed.

(** C5 on two accepted adds one millisecond apart. *)
Lemma C5_ids_unique_on_distinct_clock_witness :
  let es := [ChangeInput (str "a"); Submit 1000;
             ChangeInput (str "b"); Submit 1001] in
  st_todos (initialState []) = []
  /\ NoDup (addTimes (initialState []) es)
  /\ NoDup (id <$> st_todos (run (initialState []) es)).
Proof.
  intros es.
  assert (Hempty : st_todos (initialState []) = []) by reflexivity.
  assert (Hdistinct : NoDup (addTimes (initialState []) es)).
  { apply (NoDup_cons_2 1000%Z); [|apply NoDup_singleton].
    intros H. apply list_elem_of_singleton in H. discriminate. }
  split; [exact Hempty|]. split; [exact Hdistinct|].
  exact (proj1 (C5_ids_unique_on_distinct_clock (initialState []) es
                  Hempty Hdistinct)).
Defined.

(** ** Persistence *)

Section PersistenceFacts.

Lemma shortEscape_unescape c e :
  shortEscape c = Some e -> (e =? 117)%N = false /\ unescape e = Some c.
Proof.
  unfold shortEscape.
  repeat match goal with |- context [N.eqb c ?k] => destruct (N.eqb_spec c k) as [->|?]; [simpl; intros [= <-]; split; reflexivity|] end.
  discriminate.
Qed.

Lemma shortEscape_None c :
  shortEscape c = None -> (c =? 34)%N = false /\ (c =? 92)%N = false.
Proof.
  unfold shortEscape.
  repeat match goal with |- context [N.eqb c ?k] => destruct (N.eqb_spec c k) as [->|?]; [simpl; discriminate|] end.
  intros _. split; reflexivity.
Qed.

Lemma hexValue_hexDigit n : (n < 16)%N -> hexValue (hexDigit n) = Some n.
Proof.
  intros Hn. unfold hexDigit, hexValue.
  destruct (N.ltb_spec n 10).
  - replace ((48 <=? 48 + n) && (48 + n <=? 57))%N with true.
    + f_equal. lia.
    + symmetry. apply andb_true_iff. split; apply N.leb_le; lia.
  - replace ((48 <=? 87 + n) && (87 + n <=? 57))%N with false.
    + replace ((97 <=? 87 + n) && (87 + n <=? 102))%N with true.
      * f_equal. lia.
      * symmetry. apply andb_true_iff. split; apply N.leb_le; lia.
    + symmetry. apply andb_false_iff. right. apply N.leb_gt. lia.
Qed.

Lemma hex4_digits c :
  (c < 65536)%N ->
  hex4 (hexDigit (c / 4096 mod 16)) (hexDigit (c / 256 mod 16))
       (hexDigit (c / 16 mod 16)) (hexDigit (c mod 16)) = Some c.
Proof.
  intros Hc. unfold hex4.
  rewrite !hexValue_hexDigit by (apply N.mod_upper_bound; discriminate).
  simpl. f_equal. 
  change 4096%N with (16 * (16 * 16))%N at 2. change 256%N with (16 * 16)%N at 2.
  rewrite <- !N.Div0.div_div.
  zify. Z.to_euclidean_division_equations. lia.
Qed.

Lemma UnicodeEscape_parse c body rest tl :
  (c < 65536)%N ->
  parseString tl = Some (body, rest) ->
  parseString (UnicodeEscape c ++ tl) = Some (c :: body, rest).
Proof.
  intros Hc Htl. unfold UnicodeEscape.
  cbn [app parseString N.eqb Pos.eqb].
  rewrite hex4_digits by done. now rewrite Htl.
Qed.

Lemma verbatim_parse c body rest tl :
  (c =? 34)%N = false -> (c =? 92)%N = false -> (c <? 32)%N = false ->
  parseString tl = Some (body, rest) ->
  parseString (c :: tl) = Some (c :: body, rest).
Proof. intros H1 H2 H3 Htl. cbn [parseString]. now rewrite H1, H2, H3, Htl. Qed.

Lemma surrogate_bounds c :
  isLeadingSurrogate c = true \/ isTrailingSurrogate c = true ->
  (c < 65536)%N /\ (c =? 34)%N = false /\ (c =? 92)%N = false
  /\ (c <? 32)%N = false.
Proof.
  unfold isLeadingSurrogate, isTrailingSurrogate.
  rewrite !andb_true_iff, !N.leb_le.
  intros H. repeat split; try apply N.eqb_neq; try apply N.ltb_ge; lia.
Qed.

Lemma parseString_quoteChars_len n : forall s rest,
  length s <= n ->
  parseString (quoteChars s ++ 34%N :: rest) = Some (s, rest).
Proof.
  induction n as [|n IH]; intros s rest Hlen.
  - destruct s; [reflexivity|simpl in Hlen; lia].
  - destruct s as [|c s]; [reflexivity|]. simpl in Hlen.
    assert (Hs : parseString (quoteChars s ++ 34%N :: rest) = Some (s, rest))
      by (apply IH; lia).
    cbn [quoteChars].
    destruct (shortEscape c) as [e|] eqn:Hesc.
    { apply shortEscape_unescape in Hesc as [Hu Hun].
      cbn [app parseString N.eqb Pos.eqb]. now rewrite Hu, Hun, Hs. }
    apply shortEscape_None in Hesc as [Hq Hb].
    destruct (c <? 32)%N eqn:Hctl.
    { rewrite <- app_assoc. apply UnicodeEscape_parse; [|done].
      apply N.ltb_lt in Hctl. lia. }
    destruct (isLeadingSurrogate c) eqn:Hlead.
    { destruct (surrogate_bounds c (or_introl Hlead)) as [Hc _].
      destruct s as [|d s'].
      - now apply (UnicodeEscape_parse c [] rest (34%N :: rest)).
      - destruct (isTrailingSurrogate d) eqn:Htrail.
        + destruct (surrogate_bounds d (or_intror Htrail)) as (_ & Hd1 & Hd2 & Hd3).
          simpl app. apply verbatim_parse; [done..|].
          apply verbatim_parse; [done..|].
          apply IH. simpl in Hlen. lia.
        + rewrite <- app_assoc. now apply UnicodeEscape_parse. }
    destruct (isTrailingSurrogate c) eqn:Htrail.
    { destruct (surrogate_bounds c (or_intror Htrail)) as [Hc _].
      rewrite <- app_assoc. now apply UnicodeEscape_parse. }
    simpl app. now apply verbatim_parse.
Qed.

Lemma parseString_QuoteJSONString s rest :
  exists body, QuoteJSONString s ++ rest = 34%N :: body
               /\ parseString body = Some (s, rest).
Proof.
  exists (quoteChars s ++ 34%N :: rest). split.
  - unfold QuoteJSONString. simpl. now rewrite <- app_assoc.
  - now apply (parseString_quoteChars_len (length s)).
Qed.

Lemma serialize_array elems :
  serialize (JArray elems) = 91%N :: joinComma (List.map serialize elems) ++ [93%N].
Proof. reflexivity. Qed.

Lemma serialize_object props :
  serialize (JObject props) = 123%N :: joinComma (List.map member props) ++ [125%N].
Proof. reflexivity. Qed.

Lemma joinComma_cons x y l :
  joinComma (x :: y :: l) = x ++ 44%N :: joinComma (y :: l).
Proof. reflexivity. Qed.

Lemma joinComma_head x l tl c body :
  x = c :: body -> exists r, joinComma (x :: l) ++ tl = c :: r.
Proof. intros ->. destruct l; simpl; eexists; reflexivity. Qed.

Lemma need_pos v : 1 <= need v.
Proof. destruct v; simpl; lia. Qed.

(** The first character of a serialized value. *)
Lemma serialize_head v :
  numberFree v = true ->
  exists c body, serialize v = c :: body
                 /\ isJsonWhiteSpace c = false /\ (c =? 93)%N = false.
Proof.
  destruct v as [|[|]| | | |]; intros Hnf; try discriminate;
    try (eexists _, _; split; [reflexivity|split; reflexivity]).
Qed.

Lemma parseValue_string fuel body s rest :
  parseString body = Some (s, rest) ->
  parseValue (S fuel) (34%N :: body) = Some (JString s, rest).
Proof. intros H. simpl. now rewrite H. Qed.

Lemma parseValue_array fuel c r :
  isJsonWhiteSpace c = false -> (c =? 93)%N = false ->
  parseValue (S fuel) (91%N :: c :: r)
  = match parseElements fuel (c :: r) with
    | Some (elems, rest) => Some (JArray elems, rest)
    | None => None
    end.
Proof. intros Hws Hc. cbn [parseValue skipWS isJsonWhiteSpace N.eqb Pos.eqb orb]. rewrite Hws. simpl. now rewrite Hc. Qed.

Lemma parseValue_object fuel r :
  parseValue (S fuel) (123%N :: 34%N :: r)
  = match parseMembers fuel (34%N :: r) with
    | Some (props, rest) => Some (JObject props, rest)
    | None => None
    end.
Proof. reflexivity. Qed.

Lemma parseElements_step fuel s v r :
  parseValue fuel s = Some (v, r) ->
  parseElements (S fuel) s
  = match skipWS r with
    | [] => None
    | c :: r' =>
        if (c =? 44)%N then
          match parseElements fuel r' with
          | Some (vs, rest) => Some (v :: vs, rest)
          | None => None
          end
        else if (c =? 93)%N then Some ([v], r')
        else None
    end.
Proof. intros H. cbn [parseElements]. now rewrite H. Qed.

Lemma parseMembers_step fuel body k r2 v r3 :
  parseString body = Some (k, 58%N :: r2) ->
  parseValue fuel r2 = Some (v, r3) ->
  parseMembers (S fuel) (34%N :: body)
  = match skipWS r3 with
    | [] => None
    | c :: r4 =>
        if (c =? 44)%N then
          match parseMembers fuel r4 with
          | Some (ps, rest) => Some ((k, v) :: ps, rest)
          | None => None
          end
        else if (c =? 125)%N then Some ([(k, v)], r4)
        else None
    end.
Proof. intros Hk Hv. cbn [parseMembers skipWS isJsonWhiteSpace N.eqb Pos.eqb orb negb]. rewrite Hk. cbn [skipWS isJsonWhiteSpace N.eqb Pos.eqb orb negb]. now rewrite Hv. Qed.

Lemma parse_serialize_fuel fuel :
  (forall v rest, numberFree v = true -> need v <= fuel ->
     parseValue fuel (serialize v ++ rest) = Some (v, rest))
  /\ (forall v vs rest,
        forallb numberFree (v :: vs) = true -> needElems (v :: vs) <= fuel ->
        parseElements fuel (joinComma (List.map serialize (v :: vs)) ++ 93%N :: rest)
        = Some (v :: vs, rest))
  /\ (forall kv ps rest,
        forallb (fun kv => numberFree (snd kv)) (kv :: ps) = true ->
        needProps (kv :: ps) <= fuel ->
        parseMembers fuel (joinComma (List.map member (kv :: ps)) ++ 125%N :: rest)
        = Some (kv :: ps, rest)).
Proof.
  induction fuel as [|fuel (IHv & IHe & IHm)].
  { split; [|split].
    - intros v rest _ H. pose proof (need_pos v). lia.
    - intros v vs rest _ H. simpl in H. lia.
    - intros kv ps rest _ H. simpl in H. lia. }
  split; [|split].
  - intros v rest Hnf Hfuel.
    destruct v as [|[|]|lexeme|s|elems|props]; try reflexivity; try discriminate.
    + change (serialize (JString s)) with (QuoteJSONString s).
      destruct (parseString_QuoteJSONString s rest) as (body & -> & Hbody).
      now apply parseValue_string.
    + rewrite serialize_array. destruct elems as [|v vs]; [reflexivity|].
      rewrite <- app_comm_cons, <- app_assoc. simpl app at 2.
      assert (Hv : numberFree v = true)
        by (simpl in Hnf; now apply andb_true_iff in Hnf as [? _]).
      destruct (serialize_head v Hv) as (c & body & Hhead & Hws & Hc).
      destruct (joinComma_head (serialize v) (List.map serialize vs)
                  (93%N :: rest) c body Hhead) as [r Hr].
      change (List.map serialize (v :: vs))
        with (serialize v :: List.map serialize vs) in *.
      rewrite Hr, parseValue_array, <- Hr by done.
      assert (He := IHe v vs rest Hnf). cbn [List.map] in He.
      rewrite He; [done|]. simpl in Hfuel. unfold needElems. simpl. lia.
    + rewrite serialize_object. destruct props as [|kv ps]; [reflexivity|].
      rewrite <- app_comm_cons, <- app_assoc. simpl app at 2.
      destruct (joinComma_head (member kv) (List.map member ps)
                  (125%N :: rest) 34%N
                  (quoteChars (fst kv) ++ [34%N] ++ 58%N :: serialize (snd kv)))
        as [r Hr].
      { unfold member, QuoteJSONString. now rewrite <- app_comm_cons, <- app_assoc. }
      change (List.map member (kv :: ps)) with (member kv :: List.map member ps) in *.
      rewrite Hr, parseValue_object, <- Hr.
      assert (Hm := IHm kv ps rest Hnf). cbn [List.map] in Hm.
      rewrite Hm; [done|]. simpl in Hfuel. unfold needProps. simpl. lia.
  - intros v vs rest Hnf Hfuel.
    simpl in Hnf. apply andb_true_iff in Hnf as [Hv Hvs].
    assert (Hneed : need v <= fuel /\ needElems vs <= fuel)
      by (unfold needElems in *; simpl in Hfuel; lia).
    destruct Hneed as [Hneedv Hneedvs].
    destruct vs as [|v' vs'].
    + cbn [List.map joinComma].
      rewrite (parseElements_step _ _ v (93%N :: rest)) by now apply IHv.
      reflexivity.
    + cbn [List.map]. rewrite joinComma_cons, <- app_assoc, <- app_comm_cons.
      rewrite (parseElements_step _ _ v
                 (44%N :: joinComma (List.map serialize (v' :: vs')) ++ 93%N :: rest))
        by now apply IHv.
      cbn [skipWS isJsonWhiteSpace N.eqb Pos.eqb orb].
      now rewrite IHe.
  - intros [k v] ps rest Hnf Hfuel.
    simpl in Hnf. apply andb_true_iff in Hnf as [Hv Hps].
    assert (Hneed : need v <= fuel /\ needProps ps <= fuel)
      by (unfold needProps in *; simpl in Hfuel; lia).
    destruct Hneed as [Hneedv Hneedps].
    assert (Hkey : forall tl, exists body,
               member (k, v) ++ tl = 34%N :: body
               /\ parseString body = Some (k, 58%N :: serialize v ++ tl)).
    { intros tl. unfold member. simpl fst. simpl snd.
      rewrite <- app_assoc, <- app_comm_cons.
      apply parseString_QuoteJSONString. }
    destruct ps as [|kv' ps'].
    + cbn [List.map joinComma].
      destruct (Hkey (125%N :: rest)) as (body & -> & Hbody).
      rewrite (parseMembers_step _ _ _ _ v (125%N :: rest) Hbody)
        by now apply IHv.
      reflexivity.
    + change (List.map member ((k, v) :: kv' :: ps'))
        with (member (k, v) :: List.map member (kv' :: ps')).
      change (joinComma (member (k, v) :: List.map member (kv' :: ps')))
        with (member (k, v) ++ 44%N :: joinComma (List.map member (kv' :: ps'))).
      rewrite <- app_assoc, <- app_comm_cons.
      destruct (Hkey (44%N :: joinComma (List.map member (kv' :: ps')) ++ 125%N :: rest))
        as (body & -> & Hbody).
      rewrite (parseMembers_step _ _ _ _ v _ Hbody) by now apply IHv.
      cbn [skipWS isJsonWhiteSpace N.eqb Pos.eqb orb].
      now rewrite IHm.
Qed.

Lemma JSON_parse_serialize v :
  numberFree v = true -> need v <= 2 * length (serialize v) + 2 ->
  JSON_parse (serialize v) = Some v.
Proof.
  intros Hnf Hfuel. unfold JSON_parse.
  destruct (parse_serialize_fuel (2 * length (serialize v) + 2)) as [Hv _].
  specialize (Hv v [] Hnf Hfuel). rewrite app_nil_r in Hv. now rewrite Hv.
Qed.

Lemma length_joinComma (items : list jsstring) :
  Forall (fun x => 4 <= length x) items ->
  4 * length items <= length (joinComma items).
Proof.
  induction 1 as [|x l Hx Hl IH]; [done|].
  destruct l as [|y l]; [simpl; lia|].
  rewrite joinComma_cons, length_app. simpl in *. lia.
Qed.

Lemma Todo_toJson_numberFree t : numberFree (Todo_toJson t) = true.
Proof. destruct t as [i x c [| |s]]; reflexivity. Qed.

Lemma Todo_toJson_need t : need (Todo_toJson t) <= 6.
Proof. destruct t as [i x c [| |s]]; cbv; lia. Qed.

Lemma Todos_numberFree todos :
  forallb numberFree (List.map Todo_toJson todos) = true.
Proof.
  induction todos as [|t l IH]; [done|].
  cbn [List.map forallb]. now rewrite Todo_toJson_numberFree, IH.
Qed.

Lemma Todos_need todos :
  needElems (List.map Todo_toJson todos) <= 7 * length todos.
Proof.
  induction todos as [|t l IH]; [simpl; lia|].
  pose proof (Todo_toJson_need t).
  change (needElems (List.map Todo_toJson (t :: l)))
    with (S (Nat.max (need (Todo_toJson t)) (needElems (List.map Todo_toJson l)))).
  simpl length. lia.
Qed.

Lemma JSON_parse_stringify todos :
  JSON_parse (JSON_stringify todos) = Some (JArray (List.map Todo_toJson todos)).
Proof.
  unfold JSON_stringify. apply JSON_parse_serialize.
  - apply Todos_numberFree.
  - rewrite serialize_array.
    change (need (JArray (List.map Todo_toJson todos)))
      with (S (needElems (List.map Todo_toJson todos))).
    pose proof (Todos_need todos).
    pose proof (length_joinComma (List.map serialize (List.map Todo_toJson todos))) as Hlen.
    rewrite !length_map in Hlen.
    simpl length. rewrite length_app.
    assert (4 * length todos <= length (joinComma (List.map serialize (List.map Todo_toJson todos)))).
    { apply Hlen. apply Forall_forall. intros x Hx.
      apply list_elem_of_In, in_map_iff in Hx as [v [<- Hv]].
      apply in_map_iff in Hv as [t [<- _]].
      unfold Todo_toJson. rewrite serialize_object.
      cbn [List.map app joinComma length]. rewrite !length_app. simpl. lia. }
    lia.
Qed.

Lemma Todo_ofJson_toJson t : Todo_ofJson (Todo_toJson t) = Some t.
Proof. destruct t as [i x c [| |s]]; reflexivity. Qed.

Lemma Todos_ofJson_toJson todos :
  Todos_ofJson (JArray (List.map Todo_toJson todos)) = Some todos.
Proof.
  simpl. induction todos as [|t l IH]; [done|].
  cbn [List.map mapM]. rewrite Todo_ofJson_toJson. simpl in *. now rewrite IH.
Qed.

Lemma getInitialTodos_persist todos ls :
  getInitialTodos (persist todos ls) = LoadedTodos todos.
Proof.
  unfold getInitialTodos, persist. rewrite lookup_insert_eq.
  rewrite JSON_parse_stringify, Todos_ofJson_toJson.
  reflexivity.
Qed.

(** C7: what [JSON.stringify] writes for a collection, [JSON.parse] reads
    back as the same array of objects, which is the same collection: the
    same tasks in the same order with the same id, text, completed and due;
    so a start-up after the collection was persisted loads that
    collection. *)
Theorem C7_persist_load_round_trip (todos : list Todo) (ls : Storage) :
  JSON_parse (JSON_stringify todos) = Some (JArray (List.map Todo_toJson todos))
  /\ Todos_ofJson (JArray (List.map Todo_toJson todos)) = Some todos
  /\ getInitialTodos (persist todos ls) = LoadedTodos todos.
Proof.
  split; [apply JSON_parse_stringify|].
  split; [apply Todos_ofJson_toJson|].
  apply getInitialTodos_persist.
Qed.

End PersistenceFacts.

(** * Further properties of the handlers *)

Section CollectionFacts.

Implicit Types (st : AppState) (i : jsstring) (t : Todo) (l : list Todo).

(** The task [handleToggle] puts in place of a task carrying the id. *)
Lemma toggled_back i t :
  (let f := fun todo =>
     if idIs i todo
     then mkTodo (id todo) (text todo) (negb (completed todo)) (due todo)
     else todo in
   f (f t)) = t.
Proof.
  simpl. unfold idIs. destruct (bool_decide_reflect (id t = i)) as [Hi|Hi].
  - simpl. rewrite bool_decide_eq_true_2 by done.
    destruct t as [a b c d]. simpl. now rewrite negb_involutive.
  - now rewrite bool_decide_eq_false_2.
Qed.

(** Toggling the same id twice gives back the state, whatever the
    collection holds and however many tasks carry the id. *)
Theorem handleToggle_twice st i :
  handleToggle i (handleToggle i st) = st.
Proof.
  unfold handleToggle. destruct st as [l a b c d e f]. unfold setTodos. simpl.
  f_equal. rewrite List.map_map.
  induction l as [|t l IH]; [done|].
  cbn [List.map]. rewrite IH. f_equal. apply toggled_back.
Qed.

(** After [handleDelete] the collection holds exactly the tasks that do not
    carry the id, in their former order; deleting again changes nothing. *)
Theorem handleDelete_removes_id st i :
  (forall t, t ∈ st_todos (handleDelete i st) <-> t ∈ st_todos st /\ id t <> i)
  /\ st_todos (handleDelete i st) `sublist_of` st_todos st
  /\ (i ∉ ids (handleDelete i st))
  /\ handleDelete i (handleDelete i st) = handleDelete i st.
Proof.
  assert (Hmem : forall t, t ∈ st_todos (handleDelete i st)
                           <-> t ∈ st_todos st /\ id t <> i).
  { intros t. unfold handleDelete. simpl.
    rewrite !list_elem_of_In, filter_In, <- list_elem_of_In.
    unfold idIs. rewrite negb_true_iff, bool_decide_eq_false. tauto. }
  split; [exact Hmem|]. split; [|split].
  - unfold handleDelete. simpl.
    rewrite (filter_bool_prop _ (fun t => id t <> i)).
    + apply sublist_filter.
    + intros t. unfold idIs. now rewrite negb_true_iff, bool_decide_eq_false.
  - unfold ids. intros Hin. apply list_elem_of_fmap in Hin as [t [-> Ht]].
    apply Hmem in Ht as [_ Hne]. now apply Hne.
  - unfold handleDelete at 1. rewrite filter_unknown_id.
    + apply setTodos_same.
    + intros t Ht. now apply Hmem in Ht.
Qed.

Lemma delete_unique_length i l :
  NoDup (id <$> l) -> i ∈ id <$> l ->
  length (List.filter (fun t => negb (idIs i t)) l) + 1 = length l.
Proof.
  induction l as [|t l IH]; intros Hnd Hin; [now apply elem_of_nil in Hin|].
  rewrite fmap_cons in Hnd, Hin. apply NoDup_cons in Hnd as [Hnotin Hnd].
  cbn [List.filter]. unfold idIs at 1.
  destruct (bool_decide_reflect (id t = i)) as [Heq|Hne]; simpl.
  - rewrite filter_unknown_id; [lia|].
    intros t' Ht' Hid. apply Hnotin. rewrite Heq, <- Hid.
    apply list_elem_of_fmap. eauto.
  - apply elem_of_cons in Hin as [Hin|Hin]; [congruence|].
    rewrite <- (IH Hnd Hin). lia.
Qed.

(** When the ids are pairwise distinct and one task carries the id,
    [handleDelete] removes exactly that one task. *)
Theorem handleDelete_unique_removes_one st i :
  NoDup (ids st) -> i ∈ ids st ->
  length (st_todos (handleDelete i st)) + 1 = length (st_todos st).
Proof. intros Hnd Hin. now apply delete_unique_length. Qed.

(** [handleToggle], [handleDelete] and [handleEditSave] leave every task
    that carries another id in the collection, as it was. *)
Theorem other_ids_untouched st i t :
  id t <> i ->
  (t ∈ st_todos (handleToggle i st) <-> t ∈ st_todos st)
  /\ (t ∈ st_todos (handleDelete i st) <-> t ∈ st_todos st)
  /\ (t ∈ st_todos (handleEditSave i st) <-> t ∈ st_todos st).
Proof.
  intros Hne.
  assert (Hmap : forall (g : Todo -> Todo) l,
             (forall t0, id (g t0) = id t0) ->
             t ∈ List.map (fun t0 => if idIs i t0 then g t0 else t0) l <-> t ∈ l).
  { intros g l Hg. rewrite !list_elem_of_In, in_map_iff. split.
    - intros [t0 [Heq Hin]]. unfold idIs in Heq.
      destruct (bool_decide_reflect (id t0 = i)) as [Hi|Hi]; [|now subst].
      destruct Hne. now rewrite <- Heq, Hg.
    - intros Hin. exists t. split; [|done].
      unfold idIs. now rewrite bool_decide_eq_false_2. }
  split; [|split].
  - unfold handleToggle. simpl. now apply (Hmap (fun t0 => mkTodo _ _ _ _)).
  - unfold handleDelete. simpl.
    rewrite !list_elem_of_In, filter_In. unfold idIs.
    rewrite negb_true_iff, bool_decide_eq_false. tauto.
  - rewrite handleEditSave_todos. now apply (Hmap (fun t0 => mkTodo _ _ _ _)).
Qed.

Lemma proj_map_keeps {B} (p : Todo -> B) (f : Todo -> Todo) l :
  (forall t, p (f t) = p t) -> p <$> List.map f l = p <$> l.
Proof.
  intros Hf. induction l as [|t l IH]; [done|].
  cbn [List.map]. rewrite !fmap_cons. now rewrite Hf, IH.
Qed.

(** [handleToggle] changes no id, text or due value and [handleEditSave] no
    id or completion flag: position by position these fields are what they
    were, and the collection keeps its length. *)
Theorem toggle_and_edit_keep_fields st i :
  (id <$> st_todos (handleToggle i st) = id <$> st_todos st
   /\ text <$> st_todos (handleToggle i st) = text <$> st_todos st
   /\ due <$> st_todos (handleToggle i st) = due <$> st_todos st)
  /\ (id <$> st_todos (handleEditSave i st) = id <$> st_todos st
      /\ completed <$> st_todos (handleEditSave i st)
         = completed <$> st_todos st)
  /\ length (st_todos (handleToggle i st)) = length (st_todos st)
  /\ length (st_todos (handleEditSave i st)) = length (st_todos st).
Proof.
  rewrite handleEditSave_todos. unfold handleToggle, setTodos. cbn [st_todos].
  rewrite !length_map.
  repeat split; apply proj_map_keeps; intros t; now destruct (idIs i t).
Qed.

Lemma toggle_unique_counts i l t :
  NoDup (id <$> l) -> t ∈ l -> id t = i ->
  let l' := List.map (fun todo =>
              if idIs i todo
              then mkTodo (id todo) (text todo) (negb (completed todo)) (due todo)
              else todo) l in
  activeCount l' + (if completed t then 0 else 1)
  = activeCount l + (if completed t then 1 else 0).
Proof.
  intros Hnd Hin Hid. simpl. unfold activeCount.
  induction l as [|t0 l IH]; [now apply elem_of_nil in Hin|].
  rewrite fmap_cons in Hnd. apply NoDup_cons in Hnd as [Hnotin Hnd].
  cbn [List.map]. unfold idIs at 1.
  apply elem_of_cons in Hin as [->|Hin].
  - rewrite bool_decide_eq_true_2 by done.
    rewrite map_unknown_id.
    + cbn [List.filter completed]. destruct (completed t0); simpl; lia.
    + intros t' Ht' Heq. apply Hnotin. rewrite Hid, <- Heq.
      apply list_elem_of_fmap. eauto.
  - rewrite bool_decide_eq_false_2.
    + specialize (IH Hnd Hin). cbn [List.filter].
      destruct (negb (completed t0)); simpl; lia.
    + intros Heq. apply Hnotin. rewrite Heq, <- Hid.
      apply list_elem_of_fmap. eauto.
Qed.

(** When the ids are pairwise distinct, toggling a task moves it from one
    side to the other: an active task leaves the active count and joins the
    completed count, a completed task does the converse. *)
Theorem handleToggle_moves_one st t :
  NoDup (ids st) -> t ∈ st_todos st ->
  let st' := handleToggle (id t) st in
  if completed t
  then activeCount (st_todos st') = activeCount (st_todos st) + 1
       /\ completedCount (st_todos st') + 1 = completedCount (st_todos st)
  else activeCount (st_todos st') + 1 = activeCount (st_todos st)
       /\ completedCount (st_todos st') = completedCount (st_todos st) + 1.
Proof.
  intros Hnd Hin st'.
  pose proof (toggle_unique_counts (id t) (st_todos st) t Hnd Hin eq_refl) as Hact.
  simpl in Hact.
  assert (Hlen : length (st_todos st') = length (st_todos st))
    by (unfold st', handleToggle, setTodos; cbn [st_todos]; apply length_map).
  assert (Hp : forall l, length l = activeCount l + completedCount l)
    by (intros l; apply (length_filter_partition completed)).
  pose proof (Hp (st_todos st)). pose proof (Hp (st_todos st')).
  change (st_todos st') with
    (List.map (fun todo =>
       if idIs (id t) todo
       then mkTodo (id todo) (text todo) (negb (completed todo)) (due todo)
       else todo) (st_todos st)) in *.
  destruct (completed t); lia.
Qed.

End CollectionFacts.

(** [handleDelete_unique_removes_one] on a collection of two tasks. *)
Lemma handleDelete_unique_removes_one_witness :
  let st := initialState [mkTodo (str "1") (str "a") false DueNull;
                          mkTodo (str "2") (str "b") true DueNull] in
  NoDup (ids st) /\ str "2" ∈ ids st
  /\ length (st_todos (handleDelete (str "2") st)) + 1 = length (st_todos st).
Proof.
  intros st.
  assert (Hnd : NoDup (ids st)).
  { apply (NoDup_cons_2 (str "1")); [|apply NoDup_singleton].
    intros H. apply list_elem_of_singleton in H. discriminate. }
  assert (Hin : str "2" ∈ ids st) by (right; left).
  split; [exact Hnd|]. split; [exact Hin|].
  exact (handleDelete_unique_removes_one st (str "2") Hnd Hin).
Defined.

(** [other_ids_untouched] on a task with id "1" and the id "2". *)
Lemma other_ids_untouched_witness :
  let t := mkTodo (str "1") (str "a") false DueNull in
  let st := initialState [t; mkTodo (str "2") (str "b") true DueNull] in
  id t <> str "2"
  /\ (t ∈ st_todos (handleDelete (str "2") st) <-> t ∈ st_todos st).
Proof.
  intros t st. assert (Hne : id t <> str "2") by discriminate.
  split; [exact Hne|].
  exact (proj1 (proj2 (other_ids_untouched st (str "2") t Hne))).
Defined.

(** [handleToggle_moves_one] on the active task of a two-task
    collection. *)
Lemma handleToggle_moves_one_witness :
  let t := mkTodo (str "1") (str "a") false DueNull in
  let st := initialState [t; mkTodo (str "2") (str "b") true DueNull] in
  NoDup (ids st) /\ t ∈ st_todos st
  /\ activeCount (st_todos (handleToggle (id t) st)) + 1
     = activeCount (st_todos st).
Proof.
  intros t st.
  assert (Hnd : NoDup (ids st)).
  { apply (NoDup_cons_2 (str "1")); [|apply NoDup_singleton].
    intros H. apply list_elem_of_singleton in H. discriminate. }
  assert (Hin : t ∈ st_todos st) by left.
  split; [exact Hnd|]. split; [exact Hin|].
  exact (proj1 (handleToggle_moves_one st t Hnd Hin)).
Defined.

(** ** What [trim] leaves, and what [handleAddTodo] stores *)

Section AddFacts.

Implicit Types (st : AppState) (s : jsstring).

Lemma trimStart_fixed c s :
  isWhiteSpace c = false -> trimStart (c :: s) = c :: s.
Proof. intros H. simpl. now rewrite H. Qed.

Lemma trimStart_snoc s c :
  isWhiteSpace c = false -> trimStart (s ++ [c]) = trimStart s ++ [c].
Proof.
  intros Hc. induction s as [|a s IH]; simpl.
  - now rewrite Hc.
  - destruct (isWhiteSpace a); [exact IH|done].
Qed.

Lemma trimEnd_cons c s :
  isWhiteSpace c = false -> trimEnd (c :: s) = c :: trimEnd s.
Proof.
  intros Hc. unfold trimEnd. simpl rev at 2.
  rewrite trimStart_snoc by done. rewrite rev_app_distr. reflexivity.
Qed.

Lemma trimEnd_idem s : trimEnd (trimEnd s) = trimEnd s.
Proof.
  unfold trimEnd. rewrite rev_involutive. f_equal.
  destruct (trimStart (rev s)) as [|c r] eqn:Hs; [done|].
  apply trimStart_fixed. now apply (trimStart_head (rev s) c r).
Qed.

(** [trim] removes all the whitespace at both ends: its result is stable
    under [trim] and neither starts nor ends with a whitespace character. *)
Lemma trim_trimmed s :
  trim (trim s) = trim s
  /\ (forall c, head (trim s) = Some c -> isWhiteSpace c = false)
  /\ (forall c, last (trim s) = Some c -> isWhiteSpace c = false).
Proof.
  unfold trim. split; [|split].
  - destruct (trimStart s) as [|c r] eqn:Hs; [done|].
    pose proof (trimStart_head s c r Hs) as Hc.
    rewrite trimEnd_cons by done. rewrite trimStart_fixed by done.
    rewrite <- trimEnd_cons by done. apply trimEnd_idem.
  - intros c. destruct (trimStart s) as [|c0 r] eqn:Hs; [done|].
    pose proof (trimStart_head s c0 r Hs) as Hc.
    rewrite trimEnd_cons by done. simpl. now intros [= <-].
  - intros c. unfold trimEnd.
    destruct (trimStart (rev (trimStart s))) as [|c0 r] eqn:Hs; [done|].
    simpl. rewrite last_snoc. intros [= <-]. now apply (trimStart_head _ _ _ Hs).
Qed.

(** An accepted add appends exactly one task after the tasks already there:
    its id prints the clock reading, it is not completed, its text is the
    typed text without the whitespace at its ends (and is not empty), its
    due value is the typed one or [null] when none was typed; the two form
    fields are cleared and the rest of the state is kept. *)
Theorem handleAddTodo_appends now st :
  accepts st = true ->
  exists t,
    st_todos (handleAddTodo now st) = st_todos st ++ [t]
    /\ id t = Number_toString now
    /\ completed t = false
    /\ text t = trim (st_input st)
    /\ text t <> []
    /\ trim (text t) = text t
    /\ (forall c, head (text t) = Some c -> isWhiteSpace c = false)
    /\ (forall c, last (text t) = Some c -> isWhiteSpace c = false)
    /\ due t = (if truthy (st_due st) then DueString (st_due st) else DueNull)
    /\ due t <> DueUndefined /\ due t <> DueString []
    /\ st_input (handleAddTodo now st) = []
    /\ st_due (handleAddTodo now st) = []
    /\ st_filter (handleAddTodo now st) = st_filter st
    /\ st_editingId (handleAddTodo now st) = st_editingId st
    /\ st_editingText (handleAddTodo now st) = st_editingText st
    /\ st_editingDue (handleAddTodo now st) = st_editingDue st.
Proof.
  unfold accepts. intros Hacc. unfold handleAddTodo. rewrite Hacc. simpl.
  eexists. split; [reflexivity|]. simpl.
  destruct (trim_trimmed (st_input st)) as (Hidem & Hhead & Hlast).
  repeat split; try done.
  - intros Hnil. now rewrite Hnil in Hacc.
  - now destruct (st_due st).
  - now destruct (st_due st).
Qed.

(** The add button is disabled exactly when submitting the form would
    change nothing. *)
Theorem addDisabled_iff_submit_ignored now st :
  addDisabled st = true <-> handleAddTodo now st = st.
Proof.
  unfold addDisabled, handleAddTodo. split.
  - now intros ->.
  - destruct (negb (truthy (trim (st_input st)))); [done|].
    intros Heq. apply (f_equal (fun x : AppState => length (st_todos x))) in Heq.
    simpl in Heq. rewrite length_app in Heq. simpl in Heq. lia.
Qed.

End AddFacts.

(** [handleAddTodo_appends] on the typed text " Buy milk " at clock reading
    1000. *)
Lemma handleAddTodo_appends_witness :
  let st := setInput (str " Buy milk ") (initialState []) in
  accepts st = true
  /\ exists t, st_todos (handleAddTodo 1000 st) = st_todos st ++ [t]
               /\ id t = Number_toString 1000.
Proof.
  intros st. assert (Hacc : accepts st = true) by reflexivity.
  split; [exact Hacc|].
  destruct (handleAddTodo_appends 1000 st Hacc) as (t & Ht & Hid & _).
  exists t. split; [exact Ht|exact Hid].
Defined.

(** ** The classifier over time, and the views *)

Section ViewFacts.

Variable Date_parse : jsstring -> option Z.

Implicit Types (st : AppState) (t : Todo) (l : list Todo) (f : Filter).

(** As the clock advances a due value only moves from no status to soon to
    overdue: overdue stays overdue, soon stays soon or becomes overdue, and
    what has no status later had none before. *)
Theorem getDueStatus_advances (now now' : Z) (d : Due) :
  (now <= now')%Z ->
  (getDueStatus Date_parse now d = Some overdue ->
   getDueStatus Date_parse now' d = Some overdue)
  /\ (getDueStatus Date_parse now d = Some soon ->
      getDueStatus Date_parse now' d = Some soon
      \/ getDueStatus Date_parse now' d = Some overdue)
  /\ (getDueStatus Date_parse now' d = None ->
      getDueStatus Date_parse now d = None).
Proof.
  intros Hle. unfold getDueStatus, SOON_WINDOW.
  destruct (negb (Due_truthy d)); [repeat split; (done || auto)|].
  destruct (Date_new Date_parse d) as [dueDate|]; [|repeat split; (done || auto)].
  destruct (Z.gtb_spec now dueDate), (Z.gtb_spec now' dueDate);
    destruct (Z.ltb_spec (dueDate - now) (36 * 60 * 60 * 1000));
    destruct (Z.ltb_spec (dueDate - now') (36 * 60 * 60 * 1000));
    repeat split; intros; try done; auto; lia.
Qed.

(** A status is given only to a non-empty due string the platform can read
    as a date, and then the row shows its badge with that status; a string
    that reads as Invalid Date gets no status at any clock reading. *)
Theorem getDueStatus_only_on_dates (now : Z) (t : Todo) :
  (forall x, getDueStatus Date_parse now (due t) = Some x ->
     exists s d, due t = DueString s /\ s <> [] /\ Date_parse s = Some d
                 /\ dueBadge Date_parse now t = Some (Some x))
  /\ (forall s, Date_parse s = None ->
        getDueStatus Date_parse now (DueString s) = None).
Proof.
  split.
  - intros x Hx. unfold dueBadge. rewrite Hx. unfold getDueStatus in Hx.
    destruct (due t) as [| |s]; try discriminate.
    destruct s as [|c s]; [discriminate|]. simpl in Hx |- *.
    destruct (Date_parse (c :: s)) as [d|] eqn:Hd; [|discriminate].
    exists (c :: s), d. done.
  - intros s Hs. unfold getDueStatus. simpl. rewrite Hs.
    now destruct (negb (truthy s)).
Qed.


Lemma filter_filter_same {A} (p : A -> bool) (l : list A) :
  List.filter p (List.filter p l) = List.filter p l.
Proof.
  induction l as [|x l IH]; [done|].
  simpl. destruct (p x) eqn:Hp; simpl; rewrite ?Hp, IH; reflexivity.
Qed.

Lemma filter_sublist_weaker {A} (p q : A -> bool) (l : list A) :
  (forall x, p x = true -> q x = true) ->
  List.filter p l `sublist_of` List.filter q l.
Proof.
  intros Hpq. induction l as [|x l IH]; [done|].
  simpl. destruct (p x) eqn:Hp.
  - rewrite (Hpq x Hp). now constructor.
  - destruct (q x); [now constructor|done].
Qed.

(** Everything shown under [soon] is shown under [active], in the same
    order, so the [soon] count never exceeds the [active] count. *)
Theorem soon_within_active (now : Z) l :
  filteredTodos Date_parse now FSoon l
    `sublist_of` filteredTodos Date_parse now FActive l
  /\ soonCount Date_parse now l <= activeCount l.
Proof.
  assert (Hsub : filteredTodos Date_parse now FSoon l
                   `sublist_of` filteredTodos Date_parse now FActive l).
  { apply filter_sublist_weaker. intros t. unfold isSoon, isActive.
    now intros [H _]%andb_true_iff. }
  split; [exact Hsub|]. now apply sublist_length in Hsub.
Qed.

(** [active] and [completed] split the collection: together they hold
    every task as often as the collection does, and no task is in both. *)
Theorem active_completed_partition (now : Z) l :
  filteredTodos Date_parse now FActive l
    ++ filteredTodos Date_parse now FCompleted l ≡ₚ l
  /\ (forall t, t ∈ filteredTodos Date_parse now FActive l ->
                t ∉ filteredTodos Date_parse now FCompleted l).
Proof.
  simpl. split.
  - induction l as [|t l IH]; [done|].
    simpl. unfold isActive at 1, isCompleted at 1.
    destruct (completed t); simpl.
    + rewrite <- Permutation_middle. now constructor.
    + now constructor.
  - intros t. rewrite !list_elem_of_In, !filter_In. unfold isActive, isCompleted.
    intros [_ Ha] [_ Hc]. rewrite Hc in Ha. discriminate.
Qed.

(** Filtering a view again by its own selector changes nothing. *)
Theorem filteredTodos_idempotent (now : Z) f l :
  filteredTodos Date_parse now f (filteredTodos Date_parse now f l)
  = filteredTodos Date_parse now f l.
Proof. destruct f; simpl; [done|apply filter_filter_same..]. Qed.


(** The task an accepted add creates is shown under [all] and [active],
    never under [completed], and under [soon] exactly when its due value is
    soon; under [all] and [active] the empty-list row is then not shown. *)
Theorem added_task_is_visible (now clock : Z) st :
  accepts st = true ->
  let st' := handleAddTodo now st in
  exists t, last (st_todos st') = Some t
    /\ t ∈ filteredTodos Date_parse clock FAll (st_todos st')
    /\ t ∈ filteredTodos Date_parse clock FActive (st_todos st')
    /\ (t ∉ filteredTodos Date_parse clock FCompleted (st_todos st'))
    /\ (t ∈ filteredTodos Date_parse clock FSoon (st_todos st')
        <-> getDueStatus Date_parse clock (due t) = Some soon)
    /\ (st_filter st = FAll \/ st_filter st = FActive ->
        showsEmpty Date_parse clock st' = false).
Proof.
  intros Hacc st'. unfold accepts in Hacc.
  set (t := mkTodo (Number_toString now) (trim (st_input st)) false
              (if truthy (st_due st) then DueString (st_due st) else DueNull)).
  assert (Htodos : st_todos st' = st_todos st ++ [t])
    by (unfold st', handleAddTodo; now rewrite Hacc).
  assert (Hin : t ∈ st_todos st')
    by (rewrite Htodos; apply elem_of_app; right; now left).
  assert (Hact : t ∈ filteredTodos Date_parse clock FActive (st_todos st')).
  { simpl. apply list_elem_of_In, filter_In. split; [now apply list_elem_of_In|done]. }
  exists t. split; [rewrite Htodos; apply last_snoc|].
  split; [exact Hin|]. split; [exact Hact|]. split; [|split].
  - simpl. rewrite list_elem_of_In, filter_In. now intros [_ Hc].
  - simpl. rewrite list_elem_of_In, filter_In, <- list_elem_of_In.
    unfold isSoon. simpl. rewrite bool_decide_eq_true. tauto.
  - unfold showsEmpty. replace (st_filter st') with (st_filter st)
      by (unfold st', handleAddTodo; now rewrite Hacc).
    intros [-> | ->].
    + simpl. rewrite Htodos, length_app. simpl.
      apply Nat.eqb_neq. lia.
    + apply Nat.eqb_neq. intros Hlen. apply nil_length_inv in Hlen.
      rewrite Hlen in Hact. now apply elem_of_nil in Hact.
Qed.

End ViewFacts.

(** [getDueStatus_advances] between the clock readings 0 and 1 for a due
    date 24 hours after 0. *)
Lemma getDueStatus_advances_witness :
  (0 <= 1)%Z
  /\ (getDueStatus SampleDate.Date_parse_utc 0
        (DueString (str "1970-01-02T00:00")) = Some soon ->
      getDueStatus SampleDate.Date_parse_utc 1
        (DueString (str "1970-01-02T00:00")) = Some soon
      \/ getDueStatus SampleDate.Date_parse_utc 1
           (DueString (str "1970-01-02T00:00")) = Some overdue).
Proof.
  assert (Hle : (0 <= 1)%Z) by lia.
  split; [exact Hle|].
  exact (proj1 (proj2 (getDueStatus_advances SampleDate.Date_parse_utc 0 1
                         (DueString (str "1970-01-02T00:00")) Hle))).
Defined.

(** [added_task_is_visible] on the typed text "Buy milk" without a due
    date. *)
Lemma added_task_is_visible_witness :
  let st := setInput (str "Buy milk") (initialState []) in
  accepts st = true
  /\ exists t, last (st_todos (handleAddTodo 1000 st)) = Some t
       /\ t ∈ filteredTodos SampleDate.Date_parse_utc 0 FActive
                (st_todos (handleAddTodo 1000 st)).
Proof.
  intros st. assert (Hacc : accepts st = true) by reflexivity.
  split; [exact Hacc|].
  destruct (added_task_is_visible SampleDate.Date_parse_utc 1000 0 st Hacc)
    as (t & Hlast & _ & Hact & _).
  exists t. split; [exact Hlast|exact Hact].
Defined.

(** ** Editing mode *)

Section EditFacts.

Implicit Types (st : AppState) (i j key : jsstring) (t : Todo).

(** [handleKeyDown]: Enter commits the edit, Escape leaves editing mode
    without touching the collection, and every other key changes nothing. *)
Theorem handleKeyDown_keys st key i :
  (key = str "Enter" -> handleKeyDown key i st = handleEditSave i st)
  /\ (key = str "Escape" ->
      handleKeyDown key i st = exitEditing st
      /\ st_todos (handleKeyDown key i st) = st_todos st
      /\ st_editingId (handleKeyDown key i st) = None)
  /\ (key <> str "Enter" -> key <> str "Escape" ->
      handleKeyDown key i st = st).
Proof.
  unfold handleKeyDown. split; [|split].
  - intros ->. rewrite (bool_decide_eq_true_2 (str "Enter" = str "Enter")) by done.
    now rewrite (bool_decide_eq_false_2 (str "Enter" = str "Escape"))
      by discriminate.
  - intros ->.
    rewrite (bool_decide_eq_false_2 (str "Escape" = str "Enter")) by discriminate.
    now rewrite (bool_decide_eq_true_2 (str "Escape" = str "Escape")) by done.
  - intros H1 H2. rewrite (bool_decide_eq_false_2 (key = str "Enter")) by done.
    now rewrite (bool_decide_eq_false_2 (key = str "Escape")) by done.
Qed.

(** Opening a task for editing and committing at once, with nothing typed,
    keeps every id, text and completion flag when no other task shares the
    id; the due value of the task is kept too unless it was absent or the
    empty string, which the commit turns into [null]. *)
Theorem edit_then_commit st t :
  t ∈ st_todos st ->
  (forall t', t' ∈ st_todos st -> id t' = id t -> t' = t) ->
  let st' := handleEditSave (id t) (handleEdit (id t) (text t) (due t) st) in
  st_todos st'
  = List.map (fun t0 =>
      if idIs (id t) t0
      then mkTodo (id t0) (text t0) (completed t0)
             (if Due_truthy (due t0) then due t0 else DueNull)
      else t0) (st_todos st)
  /\ (due t = DueNull \/ (exists s, due t = DueString s /\ s <> []) ->
      st_todos st' = st_todos st)
  /\ st_editingId st' = None.
Proof.
  intros Hin Huniq st'.
  assert (Hmap : st_todos st'
    = List.map (fun t0 =>
        if idIs (id t) t0
        then mkTodo (id t0) (text t0) (completed t0)
               (if Due_truthy (due t0) then due t0 else DueNull)
        else t0) (st_todos st)).
  { unfold st'. rewrite handleEditSave_todos.
    change (st_todos (handleEdit (id t) (text t) (due t) st)) with (st_todos st).
    apply map_ext_in. intros t0 Ht0. unfold idIs.
    destruct (bool_decide_reflect (id t0 = id t)) as [Heq|]; [|done].
    rewrite (Huniq t0) by (try apply list_elem_of_In; done).
    simpl. f_equal. destruct (due t) as [| |[|c s]]; reflexivity. }
  split; [exact Hmap|]. split; [|reflexivity].
  intros Hdue. rewrite Hmap.
  rewrite <- (map_id (st_todos st)) at 2. apply map_ext_in.
  intros t0 Ht0. unfold idIs.
  destruct (bool_decide_reflect (id t0 = id t)) as [Heq|]; [|done].
  rewrite (Huniq t0) by (try apply list_elem_of_In; done).
  destruct t as [a b c d]. simpl in *.
  destruct Hdue as [->|[s [-> Hs]]]; [done|].
  destruct s; [done|reflexivity].
Qed.

(** Opening another task while an edit is pending throws the pending text
    and due value away: the state is the one opening it directly gives, the
    collection is untouched, and the rows in editing mode are those with
    the new id. *)
Theorem handleEdit_replaces_pending st i j (x x' s1 s2 : jsstring) (d d' : Due) :
  handleEdit j x' d' (setEditingDue s2 (setEditingText s1 (handleEdit i x d st)))
  = handleEdit j x' d' st
  /\ st_todos (handleEdit j x' d' st) = st_todos st
  /\ (forall t, isEditing (handleEdit j x' d' st) t = true <-> id t = j).
Proof.
  split; [now destruct st|]. split; [done|].
  intros t. unfold isEditing. simpl. rewrite bool_decide_eq_true.
  split; [now intros [= ->]|now intros ->].
Qed.

End EditFacts.

(** [edit_then_commit] on the only task of a collection. *)
Lemma edit_then_commit_witness :
  let t := mkTodo (str "1") (str "a") false (DueString (str "2030-01-01T10:00")) in
  let st := initialState [t] in
  t ∈ st_todos st
  /\ (forall t', t' ∈ st_todos st -> id t' = id t -> t' = t)
  /\ st_todos (handleEditSave (id t) (handleEdit (id t) (text t) (due t) st))
     = st_todos st.
Proof.
  intros t st.
  assert (Hin : t ∈ st_todos st) by apply list_elem_of_here.
  assert (Huniq : forall t', t' ∈ st_todos st -> id t' = id t -> t' = t).
  { intros t' Ht' _. now apply list_elem_of_singleton in Ht'. }
  split; [exact Hin|]. split; [exact Huniq|].
  refine (proj1 (proj2 (edit_then_commit st t Hin Huniq)) _).
  right. eexists. split; [reflexivity|discriminate].
Defined.

(** ** Events and runs *)

Section RunFacts.

Implicit Types (st : AppState) (e : Event) (es : list Event).

(** Typing in the form, choosing a filter, opening a task for editing and
    pressing any key but Enter never touch the collection; nothing but the
    filter buttons changes the selected filter. *)
Theorem step_frames st e :
  ((forall now, e <> Submit now) -> (forall i, e <> ClickToggle i) ->
   (forall i, e <> ClickDelete i) -> (forall i, e <> Blur i) ->
   (forall i, e <> KeyDown (str "Enter") i) ->
   st_todos (step st e) = st_todos st)
  /\ ((forall f, e <> ClickFilter f) -> st_filter (step st e) = st_filter st).
Proof.
  split.
  - intros H1 H2 H3 H4 H5. destruct e; try reflexivity;
      try (now edestruct H1); try (now edestruct H2);
      try (now edestruct H3); try (now edestruct H4).
    simpl. unfold handleKeyDown.
    destruct (bool_decide_reflect (key = str "Enter")) as [->|_];
      [now edestruct H5|].
    now destruct (bool_decide (key = str "Escape")).
  - intros H. destruct e; try reflexivity.
    + simpl. unfold handleAddTodo.
      now destruct (negb (truthy (trim (st_input st)))).
    + now edestruct H.
    + simpl. unfold handleKeyDown.
      destruct (bool_decide (key = str "Enter"));
        now destruct (bool_decide (key = str "Escape")).
Qed.

(** One event adds at most one task; only a form submission can make the
    collection longer and only a delete can make it shorter. *)
Theorem step_length st e :
  length (st_todos (step st e)) <= length (st_todos st) + 1
  /\ ((forall now, e <> Submit now) ->
      length (st_todos (step st e)) <= length (st_todos st))
  /\ ((forall i, e <> ClickDelete i) ->
      length (st_todos st) <= length (st_todos (step st e))).
Proof.
  assert (Hadd : forall now,
             length (st_todos st) <= length (st_todos (handleAddTodo now st))
             <= length (st_todos st) + 1).
  { intros now. unfold handleAddTodo.
    destruct (negb (truthy (trim (st_input st)))); simpl; [lia|].
    rewrite length_app. simpl. lia. }
  assert (Hdel : forall i,
             length (st_todos (handleDelete i st)) <= length (st_todos st)).
  { intros i. unfold handleDelete. simpl. apply filter_length_le. }
  assert (Hsave : forall i,
             length (st_todos (handleEditSave i st)) = length (st_todos st)).
  { intros i. rewrite handleEditSave_todos. apply length_map. }
  assert (Htog : forall i,
             length (st_todos (handleToggle i st)) = length (st_todos st)).
  { intros i. unfold handleToggle. simpl. apply length_map. }
  assert (Hkey : forall key i,
             length (st_todos (handleKeyDown key i st)) = length (st_todos st)).
  { intros key i. unfold handleKeyDown.
    destruct (bool_decide (key = str "Enter"));
      destruct (bool_decide (key = str "Escape")); simpl; try done;
      change (length (st_todos (handleEditSave i st))
              = length (st_todos st)); apply Hsave. }
  split; [|split].
  - destruct e; cbn [step]; rewrite ?Htog, ?Hsave, ?Hkey; try (simpl; lia).
    + pose proof (Hadd now). lia.
    + pose proof (Hdel i). lia.
  - intros H. destruct e; cbn [step]; rewrite ?Htog, ?Hsave, ?Hkey;
      try (simpl; lia).
    + now edestruct H.
    + apply Hdel.
  - intros H. destruct e; cbn [step]; rewrite ?Htog, ?Hsave, ?Hkey;
      try (simpl; lia).
    + pose proof (Hadd now). lia.
    + now edestruct H.
Qed.

(** No run reorders the collection: after it the tasks that were there at
    the start and remain come first, in their former order, and the tasks
    the run added and kept follow, in the order of their adds. *)
Theorem run_keeps_order es : forall st,
  exists kept added,
    ids (run st es) = kept ++ added
    /\ kept `sublist_of` ids st
    /\ added `sublist_of` (Number_toString <$> addTimes st es).
Proof.
  induction es as [|e es IH]; intros st.
  { exists (ids st), []. split; [now rewrite app_nil_r|]. split; done. }
  change (run st (e :: es)) with (run (step st e) es).
  destruct (IH (step st e)) as (kept & added & Hids & Hkept & Hadded).
  assert ((exists now, e = Submit now) \/ (forall now, e <> Submit now))
    as [[now ->]|Hne] by (destruct e; eauto).
  - cbn [addTimes]. simpl step in *. destruct (accepts st) eqn:Hacc.
    + rewrite ids_handleAddTodo in Hkept by done.
      apply sublist_app_r in Hkept as (k1 & k2 & -> & Hk1 & Hk2).
      exists k1, (k2 ++ added). split; [now rewrite Hids, <- app_assoc|].
      split; [exact Hk1|]. rewrite fmap_app. now apply sublist_app.
    + rewrite handleAddTodo_rejects in * by done.
      exists kept, added. done.
  - assert (addTimes st (e :: es) = addTimes (step st e) es) as ->
      by (destruct e; try reflexivity; now destruct (Hne now)).
    exists kept, added. split; [done|]. split; [|done].
    etransitivity; [exact Hkept|]. now apply ids_step_other.
Qed.

End RunFacts.

(** ** Storage *)

Section StorageFacts.

Implicit Types (ls : Storage) (todos : list Todo).

(** Persisting overwrites the one slot and nothing else: the collection
    persisted last is the one a start-up loads, whatever was persisted
    before, every other key of the storage keeps its value, and once the
    slot is removed a start-up finds the empty collection. *)
Theorem persist_overwrites todos1 todos2 ls (k : jsstring) :
  persist todos2 (persist todos1 ls) = persist todos2 ls
  /\ getInitialTodos (persist todos2 (persist todos1 ls)) = LoadedTodos todos2
  /\ (k <> STORAGE_KEY -> persist todos1 ls !! k = ls !! k)
  /\ getInitialTodos (delete STORAGE_KEY (persist todos1 ls)) = LoadedTodos [].
Proof.
  split; [apply insert_insert_eq|]. split; [apply getInitialTodos_persist|].
  split.
  - intros Hk. unfold persist. now apply lookup_insert_ne.
  - unfold getInitialTodos. now rewrite lookup_delete_eq.
Qed.


Lemma stripPrefix_head_differs (a : N) (p s : jsstring) (c : N) :
  (c =? a)%N = false -> stripPrefix (a :: p) (c :: s) = None.
Proof. intros H. simpl. now rewrite N.eqb_sym, H. Qed.

(** A stored text that begins with a character no JSON value starts with is
    not caught at start-up: [getInitialTodos] ends in the SyntaxError of
    [JSON.parse]. *)
Theorem getInitialTodos_malformed ls (c : N) (r : jsstring) :
  ls !! STORAGE_KEY = Some (c :: r) ->
  isJsonWhiteSpace c = false -> startsValue c = false ->
  getInitialTodos ls = SyntaxError.
Proof.
  intros Hls Hws Hstart. unfold getInitialTodos. rewrite Hls. simpl truthy.
  cbv iota.
  unfold startsValue in Hstart. rewrite !orb_false_iff in Hstart.
  destruct Hstart as (((((((Hq & Hb) & Ho) & Hn) & Ht) & Hf) & Hm) & Hd).
  assert (Hparse : JSON_parse (c :: r) = None); [|now rewrite Hparse].
  unfold JSON_parse.
  replace (2 * length (c :: r) + 2) with (S (2 * length r + 3))
    by (simpl; lia).
  cbn [parseValue skipWS]. rewrite Hws, Hq, Hb, Ho.
  change (str "null") with [110; 117; 108; 108]%N.
  change (str "true") with [116; 114; 117; 101]%N.
  change (str "false") with [102; 97; 108; 115; 101]%N.
  rewrite !stripPrefix_head_differs by done.
  unfold parseNumber. now rewrite Hm, Hd.
Qed.

End StorageFacts.


(** [getInitialTodos_malformed] on a slot that holds the text
    "undefined". *)
Lemma getInitialTodos_malformed_witness :
  let ls : Storage := {[ STORAGE_KEY := str "undefined" ]} in
  ls !! STORAGE_KEY = Some (str "undefined")
  /\ getInitialTodos ls = SyntaxError.
Proof.
  intros ls.
  assert (Hls : ls !! STORAGE_KEY = Some (117%N :: str "ndefined"))
    by apply lookup_singleton_eq.
  split; [exact Hls|].
  exact (getInitialTodos_malformed ls 117 (str "ndefined") Hls eq_refl eq_refl).
Defined.

(** ** Invariants of runs *)

Section InvariantFacts.

Variable Date_parse : jsstring -> option Z.

Implicit Types (st : AppState) (e : Event) (es : list Event) (t : Todo).

Lemma Forall_map_keeps (P : Todo -> Prop) (f : Todo -> Todo) (l : list Todo) :
  (forall t, P t -> P (f t)) -> Forall P l -> Forall P (List.map f l).
Proof.
  intros Hf. induction 1 as [|t l Ht Hl IH]; simpl; constructor; auto.
Qed.

Lemma Forall_filter_keeps (P : Todo -> Prop) (b : Todo -> bool) (l : list Todo) :
  Forall P l -> Forall P (List.filter b l).
Proof.
  induction 1 as [|t l Ht Hl IH]; simpl; [constructor|].
  destruct (b t); [constructor|]; auto.
Qed.

Lemma step_keeps (P : Todo -> Prop) st e :
  (forall now, accepts st = true ->
     P (mkTodo (Number_toString now) (trim (st_input st)) false
          (if truthy (st_due st) then DueString (st_due st) else DueNull))) ->
  (forall t, P t ->
     P (mkTodo (id t) (text t) (negb (completed t)) (due t))) ->
  (commitsEdit e = true ->
   forall t, P t ->
     P (mkTodo (id t) (st_editingText st) (completed t)
          (if truthy (st_editingDue st) then DueString (st_editingDue st)
           else DueNull))) ->
  Forall P (st_todos st) -> Forall P (st_todos (step st e)).
Proof.
  intros Hadd Htog Hsave Hall.
  assert (Hcommit : forall i,
            (forall t, P t ->
               P (mkTodo (id t) (st_editingText st) (completed t)
                    (if truthy (st_editingDue st)
                     then DueString (st_editingDue st) else DueNull))) ->
            Forall P (st_todos (handleEditSave i st))).
  { intros i Hs. rewrite handleEditSave_todos. apply Forall_map_keeps; [|done].
    intros t Ht. destruct (idIs i t); auto. }
  destruct e; cbn [step]; try exact Hall.
  - unfold handleAddTodo.
    destruct (truthy (trim (st_input st))) eqn:Hacc; simpl; [|done].
    apply Forall_app. split; [done|]. constructor; [|constructor].
    apply Hadd. exact Hacc.
  - unfold handleToggle. simpl. apply Forall_map_keeps; [|done].
    intros t Ht. destruct (idIs i t); auto.
  - unfold handleDelete. simpl. now apply Forall_filter_keeps.
  - apply Hcommit. now apply Hsave.
  - unfold handleKeyDown. simpl in Hsave.
    destruct (bool_decide (key = str "Enter"));
      destruct (bool_decide (key = str "Escape")); try exact Hall;
      change (Forall P (st_todos (handleEditSave i st))); apply Hcommit; auto.
Qed.

(** Whatever the events, the app never writes an absent or empty due value:
    when every due value of the collection is [null] or a non-empty string
    (as in the empty collection), it is so after every run. *)
Theorem run_keeps_due_normal st es :
  Forall dueIsNormal (st_todos st) ->
  Forall dueIsNormal (st_todos (run st es)).
Proof.
  revert st. induction es as [|e es IH]; intros st Hall; [done|].
  change (run st (e :: es)) with (run (step st e) es). apply IH.
  assert (Hnorm : forall (a b : jsstring) c (d : jsstring),
            dueIsNormal (mkTodo a b c (if truthy d then DueString d else DueNull))).
  { intros a b c d. unfold dueIsNormal. simpl.
    destruct d; [now left|right; eexists; split; [reflexivity|discriminate]]. }
  apply step_keeps; auto.
Qed.

(** As long as no edit is committed, every task keeps the text its add
    stored: not empty and without whitespace at its ends. *)
Theorem run_without_edits_keeps_text_trimmed st es :
  Forall textIsTrimmed (st_todos st) ->
  Forall (fun e => commitsEdit e = false) es ->
  Forall textIsTrimmed (st_todos (run st es)).
Proof.
  revert st. induction es as [|e es IH]; intros st Hall Hes; [done|].
  apply Forall_cons in Hes as [He Hes].
  change (run st (e :: es)) with (run (step st e) es). apply IH; [|done].
  apply step_keeps; auto.
  - intros now Hacc. unfold textIsTrimmed. simpl. split.
    + unfold accepts in Hacc. intros Hnil. now rewrite Hnil in Hacc.
    + apply trim_trimmed.
  - intros Hc. congruence.
Qed.


End InvariantFacts.

(** [run_keeps_due_normal] from the empty collection. *)
Lemma run_keeps_due_normal_witness :
  let es := [ChangeInput (str "a"); ChangeDue (str "2030-01-01T10:00");
             Submit 1000; DoubleClick (str "1000") (str "a") DueNull;
             Blur (str "1000")] in
  Forall dueIsNormal (st_todos (initialState []))
  /\ Forall dueIsNormal (st_todos (run (initialState []) es)).
Proof.
  intros es.
  assert (H0 : Forall dueIsNormal (st_todos (initialState []))) by constructor.
  split; [exact H0|]. exact (run_keeps_due_normal (initialState []) es H0).
Defined.

(** [run_without_edits_keeps_text_trimmed] on an add followed by a toggle. *)
Lemma run_without_edits_keeps_text_trimmed_witness :
  let es := [ChangeInput (str "  a "); Submit 1000; ClickToggle (str "1000")] in
  Forall textIsTrimmed (st_todos (initialState []))
  /\ Forall (fun e => commitsEdit e = false) es
  /\ Forall textIsTrimmed (st_todos (run (initialState []) es)).
Proof.
  intros es.
  assert (H0 : Forall textIsTrimmed (st_todos (initialState []))) by constructor.
  assert (Hes : Forall (fun e => commitsEdit e = false) es)
    by (repeat constructor).
  split; [exact H0|]. split; [exact Hes|].
  exact (run_without_edits_keeps_text_trimmed (initialState []) es H0 Hes).
Defined.

